(** * Airflow: DAG-run request bodies, the internal-API decorator, the
      SFTP-to-GCS transfer operator, and the scheduling core

    A shallow embedding of

    - [airflow/api_fastapi/core_api/datamodels/dag_run.py]: the bodies of the
      DAG-run endpoints and their validators ([DagRunModels]);
    - [airflow/api_internal/internal_api_call.py]: the [internal_api_call]
      decorator ([InternalApi]);
    - [providers/google/cloud/transfers/sftp_to_gcs.py]: [SFTPToGCSOperator]
      ([Str] for the string operations it uses, [SftpToGcs]);
    - [airflow/api_fastapi/app.py]: the FastAPI application and the auth
      manager ([ApiApp]);

    and models of the pool allocator ([Pools]), the dependency evaluator
    ([Deps], [Dag]), the task-instance state machine ([StateMachine]) and
    the DagRun manager ([DagRunManager]). Their code is not among the
    sources; they are written down from the specification, and every such
    definition says so. *)

From Stdlib Require Import ZArith String Ascii List Lia Bool DecimalString.
From stdpp Require Import base option list gmap strings.

Local Open Scope string_scope.
Local Open Scope list_scope.

(* ===================================================================== *)
(** * Python values shared by the datamodels *)
(* ===================================================================== *)

Module Py.

(** A key of a request body as pydantic sees it: the key may be missing,
    carry [None], or carry a value. *)
Inductive field (A : Type) : Type :=
| Absent
| Null
| Given (a : A).
Arguments Absent {A}.
Arguments Null {A}.
Arguments Given {A} a.

(** [datetime.datetime]: an instant, and the UTC offset of its [tzinfo]
    when it has one ([None] for a naive datetime). *)
Record datetime : Type := mk_datetime {
  instant : Z;
  utcoffset : option Z
}.

(** pydantic's [AwareDatetime] accepts a datetime only with a [tzinfo]. *)
Definition is_aware (d : datetime) : bool :=
  match utcoffset d with Some _ => true | None => false end.

(** JSON-like values, for the [conf] dictionary. *)
#[warnings="-register-all"]
Inductive json : Type :=
| JNull
| JBool (b : bool)
| JNum (z : Z)
| JStr (s : string)
| JList (l : list json)
| JDict (d : list (string * json)).

Definition dict : Type := list (string * json).

(** Truthiness of [str | None], as in [if not self.dag_run_id]. *)
Definition truthy (s : option string) : bool :=
  match s with
  | None => false
  | Some EmptyString => false
  | Some (String _ _) => true
  end.

(** [x is None] *)
Definition is_None {A} (x : option A) : bool :=
  match x with None => true | Some _ => false end.

End Py.

Export Py.

(* ===================================================================== *)
(** * [airflow.utils.state.DagRunState] *)
(* ===================================================================== *)

Module DagRunState.

(** Modelled from the spec: the enum [DagRunState] of [airflow.utils.state]
    is imported by [dag_run.py] but its declaration is not among the
    sources. The data model of the specification gives a DagRun's state as
    one of QUEUED, RUNNING, SUCCESS, FAILED. *)
Inductive t : Type := QUEUED | RUNNING | SUCCESS | FAILED.

#[global] Instance eq_dec : EqDecision t.
Proof. solve_decision. Defined.

(** Modelled from the spec: the four states, listed. *)
Definition all : list t := [QUEUED; RUNNING; SUCCESS; FAILED].

(** Modelled from the spec: "terminal once SUCCESS or FAILED". *)
Definition terminal (s : t) : bool :=
  match s with
  | SUCCESS | FAILED => true
  | QUEUED | RUNNING => false
  end.

End DagRunState.

(* ===================================================================== *)
(** * [airflow/api_fastapi/core_api/datamodels/dag_run.py] *)
(* ===================================================================== *)

Module DagRunModels.

(** ** [class DAGRunPatchStates(str, Enum)] *)

(** Enum for DAG Run states when updating a DAG Run. *)
Inductive DAGRunPatchStates : Type :=
| QUEUED
| SUCCESS
| FAILED.

#[global] Instance DAGRunPatchStates_eq_dec : EqDecision DAGRunPatchStates.
Proof. solve_decision. Defined.

(** The members, in declaration order. *)
Definition members : list DAGRunPatchStates := [QUEUED; SUCCESS; FAILED].

(** [QUEUED = DagRunState.QUEUED], [SUCCESS = DagRunState.SUCCESS],
    [FAILED = DagRunState.FAILED]. *)
Definition value (s : DAGRunPatchStates) : DagRunState.t :=
  match s with
  | QUEUED => DagRunState.QUEUED
  | SUCCESS => DagRunState.SUCCESS
  | FAILED => DagRunState.FAILED
  end.

(** What pydantic reports; [loc] is the name of the offending field. *)
Inductive error : Type :=
| missing (loc : string)              (* required key absent *)
| none_not_allowed (loc : string)     (* None for a non-optional field *)
| enum_error (loc : string)           (* not the value of a member *)
| string_too_long (loc : string)
| timezone_aware (loc : string)       (* AwareDatetime given a naive one *)
| value_error (msg : string).         (* ValueError raised by a validator *)

(** ** [class DAGRunClearBody(StrictBaseModel)] *)

Record DAGRunClearBody : Type := {
  dry_run : bool;
  only_failed : bool
}.

(** [dry_run: bool = True], [only_failed: bool = False]. *)
Definition DAGRunClearBody_default : DAGRunClearBody :=
  {| dry_run := true; only_failed := false |}.

(** ** [class DAGRunPatchBody(StrictBaseModel)] *)

Record DAGRunPatchBody : Type := {
  state : option DAGRunPatchStates;
  note : option string
}.

Section Models.

Set Default Proof Using "Type".

(** The parts of the repository the datamodels lean on and that are not
    among the sources. *)

(** The string every [DagRunState] member is equal to ([DagRunState] is a
    [str] enum); distinct members are distinct strings. *)
Context (state_str : DagRunState.t -> string).
Context `{state_str_inj : !Inj (=) (=) state_str}.

(** [airflow.utils.types.DagRunType], of which [MANUAL] is used, and
    [DagRunTriggeredByType]. *)
Context (DagRunType : Type) (MANUAL : DagRunType).
Context (DagRunTriggeredByType : Type).

(** [DagRun.generate_run_id(run_type=..., logical_date=..., run_after=...)]
    of [airflow.models]. *)
Context (generate_run_id :
           DagRunType -> option datetime -> datetime -> string).

(** What [timezone.utcnow()] returns when the body is validated. *)
Context (utcnow : datetime).

(** *** Validation of a PATCH body *)

(** [DAGRunPatchStates(v)]: the first member whose value equals [v]. *)
Definition DAGRunPatchStates_of (v : string) : option DAGRunPatchStates :=
  List.find (fun m => bool_decide (state_str (value m) = v)) members.

Record RawPatchBody : Type := {
  raw_state : field string;
  raw_note : field string
}.

(** [state: DAGRunPatchStates | None = None] *)
Definition validate_state (r : field string)
  : error + option DAGRunPatchStates :=
  match r with
  | Absent | Null => inr None
  | Given v =>
      match DAGRunPatchStates_of v with
      | Some m => inr (Some m)
      | None => inl (enum_error "state")
      end
  end.

(** [note: str | None = Field(None, max_length=1000)] *)
Definition validate_note (r : field string) : error + option string :=
  match r with
  | Absent | Null => inr None
  | Given s =>
      if (String.length s <=? 1000)%nat then inr (Some s)
      else inl (string_too_long "note")
  end.

Definition errors_of {A} (r : error + A) : list error :=
  match r with inl e => [e] | inr _ => [] end.

(** pydantic validates every field and reports all the errors found. *)
Definition validate_patch_body (r : RawPatchBody)
  : list error + DAGRunPatchBody :=
  match validate_state (raw_state r), validate_note (raw_note r) with
  | inr s, inr n => inr {| state := s; note := n |}
  | rs, rn => inl (errors_of rs ++ errors_of rn)
  end.

(** ** [class DAGRunResponse(BaseModel)] *)

(** The fields carry the prefix [resp_]: their names are those of the
    fields of [TriggerDAGRunPostBody] below. *)

Record DAGRunResponse : Type := {
  resp_dag_run_id : string;
  resp_dag_id : string;
  resp_logical_date : option datetime;
  resp_queued_at : option datetime;
  resp_start_date : option datetime;
  resp_end_date : option datetime;
  resp_data_interval_start : option datetime;
  resp_data_interval_end : option datetime;
  resp_run_after : datetime;
  resp_last_scheduling_decision : option datetime;
  resp_run_type : DagRunType;
  resp_state : DagRunState.t;
  resp_external_trigger : bool;
  resp_triggered_by : DagRunTriggeredByType;
  resp_conf : dict;
  resp_note : option string
}.

(** ** [class TriggerDAGRunPostBody(StrictBaseModel)] *)

(** [trigger_note] is the field [note]. *)

Record TriggerDAGRunPostBody : Type := {
  dag_run_id : option string;
  data_interval_start : option datetime;
  data_interval_end : option datetime;
  logical_date : option datetime;
  run_after : datetime;
  conf : dict;
  trigger_note : option string
}.

Record RawTriggerBody : Type := {
  raw_dag_run_id : field string;
  raw_data_interval_start : field datetime;
  raw_data_interval_end : field datetime;
  raw_logical_date : field datetime;
  raw_run_after : field datetime;
  raw_conf : field dict;
  raw_trigger_note : field string
}.

(** [AwareDatetime] *)
Definition aware (loc : string) (d : datetime) : error + datetime :=
  if is_aware d then inr d else inl (timezone_aware loc).

(** [loc: AwareDatetime | None = None] *)
Definition validate_opt_aware (loc : string) (r : field datetime)
  : error + option datetime :=
  match r with
  | Absent | Null => inr None
  | Given d =>
      match aware loc d with
      | inr d => inr (Some d)
      | inl e => inl e
      end
  end.

(** [logical_date: AwareDatetime | None]: no default, so the key is
    required, but its value may be [None]. *)
Definition validate_logical_date (r : field datetime)
  : error + option datetime :=
  match r with
  | Absent => inl (missing "logical_date")
  | Null => inr None
  | Given d =>
      match aware "logical_date" d with
      | inr d => inr (Some d)
      | inl e => inl e
      end
  end.

(** [run_after: datetime = Field(default_factory=timezone.utcnow)] *)
Definition validate_run_after (r : field datetime) : error + datetime :=
  match r with
  | Absent => inr utcnow
  | Null => inl (none_not_allowed "run_after")
  | Given d => inr d
  end.

(** [dag_run_id: str | None = None], [note: str | None = None] *)
Definition validate_opt_str (r : field string) : error + option string :=
  match r with
  | Absent | Null => inr None
  | Given s => inr (Some s)
  end.

(** [conf: dict = Field(default_factory=dict)] *)
Definition validate_conf (r : field dict) : error + dict :=
  match r with
  | Absent => inr []
  | Null => inl (none_not_allowed "conf")
  | Given d => inr d
  end.

Definition validate_trigger_fields (r : RawTriggerBody)
  : list error + TriggerDAGRunPostBody :=
  match validate_opt_str (raw_dag_run_id r),
        validate_opt_aware "data_interval_start" (raw_data_interval_start r),
        validate_opt_aware "data_interval_end" (raw_data_interval_end r),
        validate_logical_date (raw_logical_date r),
        validate_run_after (raw_run_after r),
        validate_conf (raw_conf r),
        validate_opt_str (raw_trigger_note r)
  with
  | inr i, inr s, inr e, inr l, inr a, inr c, inr n =>
      inr {| dag_run_id := i; data_interval_start := s;
             data_interval_end := e; logical_date := l; run_after := a;
             conf := c; trigger_note := n |}
  | ri, rs, re, rl, ra, rc, rn =>
      inl (errors_of ri ++ errors_of rs ++ errors_of re ++ errors_of rl
           ++ errors_of ra ++ errors_of rc ++ errors_of rn)
  end.

Definition data_intervals_message : string :=
  "Either both data_interval_start and data_interval_end must be provided or both must be None".

(** [@model_validator(mode="after") def check_data_intervals(cls, values)] *)
Definition check_data_intervals (values : TriggerDAGRunPostBody)
  : error + TriggerDAGRunPostBody :=
  if negb (eqb (is_None (data_interval_start values))
               (is_None (data_interval_end values)))
  then inl (value_error data_intervals_message)
  else inr values.

(** [@model_validator(mode="after") def validate_dag_run_id(self)] *)
Definition validate_dag_run_id (self : TriggerDAGRunPostBody)
  : TriggerDAGRunPostBody :=
  if negb (truthy (dag_run_id self)) then
    {| dag_run_id :=
         Some (generate_run_id MANUAL (logical_date self) (run_after self));
       data_interval_start := data_interval_start self;
       data_interval_end := data_interval_end self;
       logical_date := logical_date self;
       run_after := run_after self;
       conf := conf self;
       trigger_note := trigger_note self |}
  else self.

(** Validation of a trigger body: the fields, then the two "after"
    validators in the order of their declaration. *)
Definition validate_trigger_body (r : RawTriggerBody)
  : list error + TriggerDAGRunPostBody :=
  match validate_trigger_fields r with
  | inl es => inl es
  | inr b =>
      match check_data_intervals b with
      | inl e => inl [e]
      | inr b => inr (validate_dag_run_id b)
      end
  end.

(** ** What the validators guarantee *)

(** Membership in a list written out. *)
Ltac in_list := simpl; repeat (first [left; reflexivity | right]).

(** Exactly one of the two is [None]. *)
Definition exactly_one_None {A B} (a : option A) (b : option B) : Prop :=
  (a = None /\ b <> None) \/ (a <> None /\ b = None).

(** Modelled from the spec: the one state an external caller may impose
    "for cancellation". The specification's cancellation path kills the
    work and fails it, so the outcome of a cancellation is FAILED. *)
Definition cancellation_outcome (s : DagRunState.t) : bool :=
  match s with
  | DagRunState.FAILED => true
  | _ => false
  end.

Lemma is_None_true {A} (x : option A) : is_None x = true <-> x = None.
Proof. destruct x; simpl; split; congruence. Qed.

Lemma is_None_false {A} (x : option A) : is_None x = false <-> x <> None.
Proof. destruct x; simpl; split; congruence. Qed.

Lemma xor_is_None {A B} (a : option A) (b : option B) :
  negb (eqb (is_None a) (is_None b)) = true <-> exactly_one_None a b.
Proof.
  unfold exactly_one_None.
  destruct a, b; simpl; split; intros H; try discriminate;
    try (left; split; congruence); try (right; split; congruence);
    destruct H as [[H1 H2] | [H1 H2]]; congruence.
Qed.

(** The two ways [check_data_intervals] can go. *)
Lemma check_data_intervals_cases (values : TriggerDAGRunPostBody) :
  (exactly_one_None (data_interval_start values) (data_interval_end values)
   /\ check_data_intervals values = inl (value_error data_intervals_message))
  \/ (~ exactly_one_None (data_interval_start values)
                         (data_interval_end values)
      /\ check_data_intervals values = inr values).
Proof.
  unfold check_data_intervals.
  pose proof (xor_is_None (data_interval_start values)
                          (data_interval_end values)) as Hx.
  destruct (negb (eqb (is_None (data_interval_start values))
                      (is_None (data_interval_end values)))).
  - left. split; [now apply Hx | reflexivity].
  - right. split; [|reflexivity].
    intros Hone. apply Hx in Hone. discriminate.
Qed.

(** C8. [check_data_intervals] raises the [ValueError] if and only if exactly
    one of [data_interval_start] and [data_interval_end] is [None]; it
    returns the body it was given, unchanged, if and only if both are given
    or both are [None]. *)
Theorem check_data_intervals_raises_iff (values : TriggerDAGRunPostBody) :
  (check_data_intervals values = inl (value_error data_intervals_message)
   <-> exactly_one_None (data_interval_start values) (data_interval_end values))
  /\ (check_data_intervals values = inr values
      <-> ~ exactly_one_None (data_interval_start values)
                             (data_interval_end values)).
Proof.
  destruct (check_data_intervals_cases values) as [[Hone ->] | [Hnot ->]].
  - split; split; intros H; try reflexivity; try discriminate; try exact Hone.
    exfalso. now apply H.
  - split; split; intros H; try reflexivity; try discriminate; try exact Hnot.
    exfalso. now apply Hnot.
Qed.

(** The same seen from the whole validation: once the fields are valid, the
    body is refused with the [ValueError] exactly when one interval bound is
    missing, and is otherwise accepted with both bounds as given. *)
Lemma validate_trigger_body_intervals
    (r : RawTriggerBody) (b0 : TriggerDAGRunPostBody) :
  validate_trigger_fields r = inr b0 ->
  (validate_trigger_body r = inl [value_error data_intervals_message]
   <-> exactly_one_None (data_interval_start b0) (data_interval_end b0))
  /\ (~ exactly_one_None (data_interval_start b0) (data_interval_end b0) ->
      validate_trigger_body r = inr (validate_dag_run_id b0)).
Proof.
  intros Hf. unfold validate_trigger_body. rewrite Hf.
  destruct (check_data_intervals_cases b0) as [[Hone ->] | [Hnot ->]].
  - split; [split; intros _; [exact Hone | reflexivity]|].
    intros Hnot. exfalso. now apply Hnot.
  - split; [split; intros H; [discriminate | exfalso; now apply Hnot]|].
    intros _. reflexivity.
Qed.

(** The enum lookup returns a member exactly for the members' values. *)
Lemma DAGRunPatchStates_of_Some (v : string) (m : DAGRunPatchStates) :
  DAGRunPatchStates_of v = Some m -> state_str (value m) = v.
Proof.
  unfold DAGRunPatchStates_of. intros H.
  apply find_some in H as [_ H].
  now apply bool_decide_eq_true in H.
Qed.

Lemma DAGRunPatchStates_of_value (m : DAGRunPatchStates) :
  DAGRunPatchStates_of (state_str (value m)) = Some m.
Proof using state_str_inj.
  unfold DAGRunPatchStates_of, members.
  destruct m; simpl;
    repeat (case_bool_decide;
            [ try reflexivity;
              match goal with
              | Hd : state_str _ = state_str _ |- _ =>
                  apply (inj state_str) in Hd; discriminate
              end
            | try congruence ]).
Qed.

Lemma DAGRunPatchStates_of_None (v : string) :
  DAGRunPatchStates_of v = None <->
  (forall m : DAGRunPatchStates, state_str (value m) <> v).
Proof using state_str_inj.
  split.
  - intros H m Hm. subst v. rewrite DAGRunPatchStates_of_value in H.
    discriminate.
  - intros H. destruct (DAGRunPatchStates_of v) as [m|] eqn:E; [|reflexivity].
    apply DAGRunPatchStates_of_Some in E. now apply H in E.
Qed.

Lemma value_not_RUNNING (m : DAGRunPatchStates) :
  value m <> DagRunState.RUNNING.
Proof. destruct m; discriminate. Qed.

Lemma value_settable (st : DagRunState.t) :
  (exists m : DAGRunPatchStates, value m = st)
  <-> In st [DagRunState.QUEUED; DagRunState.SUCCESS; DagRunState.FAILED].
Proof.
  split.
  - intros [m <-]. destruct m; in_list.
  - simpl. intros [<- | [<- | [<- | []]]];
      [exists QUEUED | exists SUCCESS | exists FAILED]; reflexivity.
Qed.

Lemma validate_patch_body_inr (r : RawPatchBody) (b : DAGRunPatchBody) :
  validate_patch_body r = inr b <->
  validate_state (raw_state r) = inr (state b)
  /\ validate_note (raw_note r) = inr (note b).
Proof.
  unfold validate_patch_body.
  destruct (validate_state (raw_state r)) as [e1|s1],
           (validate_note (raw_note r)) as [e2|n2]; destruct b as [s n];
    simpl; split; intros H; try discriminate; try (destruct H; discriminate).
  - inversion H; subst; auto.
  - destruct H as [H1 H2]. inversion H1; inversion H2; subst; reflexivity.
Qed.

(** C3. A DagRun's state, as a response reports it, is one of QUEUED,
    RUNNING, SUCCESS, FAILED; every state a PATCH body carries is one of
    these four; and the states a PATCH body can carry are exactly QUEUED,
    SUCCESS and FAILED: the string of each of the three validates to that
    very member, a string that validates at all validates to the member it
    names and never to no state, the string of RUNNING is refused, and a
    validated body carries a state exactly when the request gives one, the
    member the request names. *)
Theorem patch_states_within_dag_run_states :
  (forall r : DAGRunResponse, In (resp_state r) DagRunState.all)
  /\ (forall (b : DAGRunPatchBody) (s : DAGRunPatchStates),
         state b = Some s -> In (value s) DagRunState.all)
  /\ (forall st : DagRunState.t,
         (exists b : DAGRunPatchBody, value <$> state b = Some st)
         <-> In st [DagRunState.QUEUED; DagRunState.SUCCESS;
                    DagRunState.FAILED])
  /\ (forall (v : string) (m : DAGRunPatchStates),
         validate_state (Given v) = inr (Some m) -> state_str (value m) = v)
  /\ (forall v : string,
         (exists o, validate_state (Given v) = inr o)
         <-> In v (map state_str [DagRunState.QUEUED; DagRunState.SUCCESS;
                                  DagRunState.FAILED]))
  /\ (forall m : DAGRunPatchStates,
         validate_state (Given (state_str (value m))) = inr (Some m))
  /\ (forall (v : string) (o : option DAGRunPatchStates),
         validate_state (Given v) = inr o ->
         exists m, o = Some m /\ state_str (value m) = v)
  /\ validate_state (Given (state_str DagRunState.RUNNING))
     = inl (enum_error "state")
  /\ (forall st : DagRunState.t,
         (exists (r : RawPatchBody) (b : DAGRunPatchBody),
             raw_state r = Given (state_str st)
             /\ validate_patch_body r = inr b
             /\ value <$> state b = Some st)
         <-> In st [DagRunState.QUEUED; DagRunState.SUCCESS;
                    DagRunState.FAILED])
  /\ (forall (r : RawPatchBody) (b : DAGRunPatchBody),
         validate_patch_body r = inr b ->
         match raw_state r with
         | Given v => exists m, state b = Some m /\ state_str (value m) = v
         | Absent | Null => state b = None
         end).
Proof using state_str_inj.
  assert (forall (v : string) (o : option DAGRunPatchStates),
             validate_state (Given v) = inr o ->
             exists m, o = Some m /\ state_str (value m) = v) as Hnames.
  { intros v o H. simpl in H.
    destruct (DAGRunPatchStates_of v) as [m|] eqn:E; [|discriminate].
    apply DAGRunPatchStates_of_Some in E. exists m.
    split; [congruence | exact E]. }
  assert (forall m : DAGRunPatchStates,
             validate_state (Given (state_str (value m))) = inr (Some m))
    as Hmember.
  { intros m. simpl. rewrite DAGRunPatchStates_of_value. reflexivity. }
  split; [|split; [|split; [|split; [|split; [|split; [|split; [|split;
    [|split]]]]]]]].
  - intros r. destruct (resp_state r); in_list.
  - intros b s _. destruct s; in_list.
  - intros st. rewrite <- value_settable. split.
    + intros [b Hb]. destruct (state b) as [m|]; [|discriminate].
      exists m. simpl in Hb. congruence.
    + intros [m <-]. exists {| state := Some m; note := None |}. reflexivity.
  - intros v m H. apply Hnames in H as (m' & Hm' & Hv). congruence.
  - intros v. split.
    + intros [o H]. apply Hnames in H as (m & _ & <-). destruct m; in_list.
    + simpl. intros [<- | [<- | [<- | []]]].
      * exists (Some QUEUED). exact (Hmember QUEUED).
      * exists (Some SUCCESS). exact (Hmember SUCCESS).
      * exists (Some FAILED). exact (Hmember FAILED).
  - exact Hmember.
  - exact Hnames.
  - simpl.
    assert (DAGRunPatchStates_of (state_str DagRunState.RUNNING) = None) as ->.
    { apply DAGRunPatchStates_of_None. intros m Hm.
      apply (inj state_str) in Hm. now apply value_not_RUNNING in Hm. }
    reflexivity.
  - intros st. rewrite <- value_settable. split.
    + intros (r & b & _ & _ & Hb). destruct (state b) as [m|]; [|discriminate].
      exists m. simpl in Hb. congruence.
    + intros [m <-].
      exists {| raw_state := Given (state_str (value m)); raw_note := Absent |},
             {| state := Some m; note := None |}.
      split; [reflexivity|]. split; [|reflexivity].
      apply validate_patch_body_inr. split; [apply Hmember | reflexivity].
  - intros r b Hv. apply validate_patch_body_inr in Hv as [Hst _].
    destruct (raw_state r) as [| |v].
    + simpl in Hst. congruence.
    + simpl in Hst. congruence.
    + apply Hnames in Hst as (m & Hm & Hv). exists m.
      split; [congruence | exact Hv].
Qed.

(** C1 (amended). A PATCH request can set a DagRun's state directly, but only
    to QUEUED, SUCCESS or FAILED: a validated body that carries a state
    carries the member named by the request's string, never RUNNING; each of
    the three is accepted, and the string of RUNNING is refused. *)
Theorem patch_body_state_is_settable
    (r : RawPatchBody) (b : DAGRunPatchBody) (s : DAGRunPatchStates) :
  validate_patch_body r = inr b ->
  state b = Some s ->
  raw_state r = Given (state_str (value s))
  /\ In (value s) [DagRunState.QUEUED; DagRunState.SUCCESS; DagRunState.FAILED]
  /\ value s <> DagRunState.RUNNING
  /\ (forall m : DAGRunPatchStates,
         validate_patch_body
           {| raw_state := Given (state_str (value m)); raw_note := raw_note r |}
         = inr {| state := Some m; note := note b |})
  /\ validate_patch_body
       {| raw_state := Given (state_str DagRunState.RUNNING);
          raw_note := raw_note r |}
     = inl [enum_error "state"].
Proof using state_str_inj.
  intros Hv Hs.
  apply validate_patch_body_inr in Hv as [Hst Hn].
  rewrite Hs in Hst.
  split; [|split; [|split; [|split]]].
  - destruct (raw_state r) as [| |v]; simpl in Hst; try discriminate.
    destruct (DAGRunPatchStates_of v) as [m|] eqn:E; [|discriminate].
    apply DAGRunPatchStates_of_Some in E. congruence.
  - apply value_settable. now exists s.
  - apply value_not_RUNNING.
  - intros m. unfold validate_patch_body. simpl.
    rewrite DAGRunPatchStates_of_value, Hn. reflexivity.
  - unfold validate_patch_body. simpl.
    assert (DAGRunPatchStates_of (state_str DagRunState.RUNNING) = None) as ->.
    { apply DAGRunPatchStates_of_None. intros m Hm.
      apply (inj state_str) in Hm. now apply value_not_RUNNING in Hm. }
    rewrite Hn. reflexivity.
Qed.

Lemma validate_trigger_fields_inr (r : RawTriggerBody) (b : TriggerDAGRunPostBody) :
  validate_trigger_fields r = inr b <->
  validate_opt_str (raw_dag_run_id r) = inr (dag_run_id b)
  /\ validate_opt_aware "data_interval_start" (raw_data_interval_start r)
     = inr (data_interval_start b)
  /\ validate_opt_aware "data_interval_end" (raw_data_interval_end r)
     = inr (data_interval_end b)
  /\ validate_logical_date (raw_logical_date r) = inr (logical_date b)
  /\ validate_run_after (raw_run_after r) = inr (run_after b)
  /\ validate_conf (raw_conf r) = inr (conf b)
  /\ validate_opt_str (raw_trigger_note r) = inr (trigger_note b).
Proof.
  unfold validate_trigger_fields.
  destruct (validate_opt_str (raw_dag_run_id r)),
    (validate_opt_aware "data_interval_start" (raw_data_interval_start r)),
    (validate_opt_aware "data_interval_end" (raw_data_interval_end r)),
    (validate_logical_date (raw_logical_date r)),
    (validate_run_after (raw_run_after r)),
    (validate_conf (raw_conf r)),
    (validate_opt_str (raw_trigger_note r));
    destruct b; simpl; split; intros H;
    try discriminate;
    try (decompose [and] H; discriminate).
  - inversion H; subst. repeat split; reflexivity.
  - decompose [and] H. repeat match goal with
                              | E : inr _ = inr _ |- _ => inversion E; clear E
                              end. subst. reflexivity.
Qed.

(** The "after" validators leave both timestamps alone. *)
Lemma validate_trigger_body_inr (r : RawTriggerBody) (b : TriggerDAGRunPostBody) :
  validate_trigger_body r = inr b ->
  exists b0, validate_trigger_fields r = inr b0
             /\ check_data_intervals b0 = inr b0
             /\ b = validate_dag_run_id b0.
Proof.
  unfold validate_trigger_body. intros H.
  destruct (validate_trigger_fields r) as [es|b0]; [discriminate|].
  exists b0. split; [reflexivity|].
  destruct (check_data_intervals b0) as [e|b1] eqn:E; [discriminate|].
  assert (b1 = b0) as ->.
  { unfold check_data_intervals in E.
    destruct (negb _) in E; [discriminate | congruence]. }
  split; congruence.
Qed.

Lemma validate_dag_run_id_keeps (b : TriggerDAGRunPostBody) :
  logical_date (validate_dag_run_id b) = logical_date b
  /\ run_after (validate_dag_run_id b) = run_after b.
Proof. unfold validate_dag_run_id. destruct (negb _); split; reflexivity. Qed.

(** C7 (amended). A trigger body always ends up with a run-after timestamp
    (the one given, or [utcnow()] when the key is absent), while its logical
    timestamp is whatever the request gave: [None] for an explicit null, the
    aware datetime otherwise. A request that leaves the key out is refused. *)
Theorem trigger_body_timestamps (r : RawTriggerBody) (b : TriggerDAGRunPostBody) :
  validate_trigger_body r = inr b ->
  ((raw_logical_date r = Null /\ logical_date b = None)
   \/ (exists d, raw_logical_date r = Given d /\ is_aware d = true
                 /\ logical_date b = Some d))
  /\ ((raw_run_after r = Absent /\ run_after b = utcnow)
      \/ raw_run_after r = Given (run_after b)).
Proof.
  intros H. apply validate_trigger_body_inr in H as (b0 & Hf & _ & ->).
  destruct (validate_dag_run_id_keeps b0) as [-> ->].
  apply validate_trigger_fields_inr in Hf as (_ & _ & _ & Hl & Ha & _).
  split.
  - destruct (raw_logical_date r) as [| |d]; simpl in Hl; try discriminate.
    + left. split; congruence.
    + right. exists d. unfold aware in Hl.
      destruct (is_aware d); [|discriminate].
      repeat split; congruence.
  - destruct (raw_run_after r) as [| |d]; simpl in Ha; try discriminate.
    + left. split; congruence.
    + right. congruence.
Qed.

(** A body that does not name [logical_date] is refused with "missing". *)
Lemma trigger_body_needs_logical_date (r : RawTriggerBody) :
  raw_logical_date r = Absent ->
  exists es, validate_trigger_body r = inl es
             /\ In (missing "logical_date") es.
Proof.
  intros H. unfold validate_trigger_body, validate_trigger_fields.
  rewrite H. simpl.
  destruct (validate_opt_str (raw_dag_run_id r)),
    (validate_opt_aware "data_interval_start" (raw_data_interval_start r)),
    (validate_opt_aware "data_interval_end" (raw_data_interval_end r)),
    (validate_run_after (raw_run_after r)),
    (validate_conf (raw_conf r)),
    (validate_opt_str (raw_trigger_note r));
    eexists; (split; [reflexivity|]); in_list.
Qed.

(** ** More on the validators *)

(** No field validator reports a [ValueError]. *)
Definition field_error (e : error) : Prop :=
  match e with
  | value_error _ => False
  | _ => True
  end.

Lemma errors_of_field {A} (r : error + A) :
  (forall e, r = inl e -> field_error e) ->
  Forall field_error (errors_of r).
Proof.
  intros H. destruct r as [e|a]; simpl; constructor; [|constructor].
  now apply H.
Qed.

Lemma validate_opt_aware_field (loc : string) (r : field datetime) (e : error) :
  validate_opt_aware loc r = inl e -> field_error e.
Proof.
  destruct r as [| |d]; simpl; try discriminate.
  unfold aware. destruct (is_aware d); intros H; inversion H. exact I.
Qed.

Lemma validate_trigger_fields_errors (r : RawTriggerBody) (es : list error) :
  validate_trigger_fields r = inl es -> es <> [] /\ Forall field_error es.
Proof.
  unfold validate_trigger_fields.
  pose proof (errors_of_field _ (validate_opt_aware_field "data_interval_start"
                                   (raw_data_interval_start r))) as Hs.
  pose proof (errors_of_field _ (validate_opt_aware_field "data_interval_end"
                                   (raw_data_interval_end r))) as He.
  assert (Forall field_error
            (errors_of (validate_logical_date (raw_logical_date r)))) as Hl.
  { apply errors_of_field. intros e.
    destruct (raw_logical_date r) as [| |d]; simpl; try discriminate.
    - intros [= <-]. exact I.
    - unfold aware. destruct (is_aware d); intros H; inversion H. exact I. }
  assert (Forall field_error
            (errors_of (validate_run_after (raw_run_after r)))) as Ha.
  { apply errors_of_field. intros e.
    destruct (raw_run_after r); simpl; try discriminate.
    intros [= <-]. exact I. }
  assert (Forall field_error (errors_of (validate_conf (raw_conf r)))) as Hc.
  { apply errors_of_field. intros e.
    destruct (raw_conf r); simpl; try discriminate.
    intros [= <-]. exact I. }
  assert (forall x, errors_of (validate_opt_str x) = []) as Hstr
      by (intros [| |?]; reflexivity).
  destruct (validate_opt_str (raw_dag_run_id r)) as [e1|v1] eqn:E1;
    [destruct (raw_dag_run_id r); discriminate|].
  destruct (validate_opt_str (raw_trigger_note r)) as [e7|v7] eqn:E7;
    [destruct (raw_trigger_note r); discriminate|].
  destruct (validate_opt_aware "data_interval_start" (raw_data_interval_start r)),
    (validate_opt_aware "data_interval_end" (raw_data_interval_end r)),
    (validate_logical_date (raw_logical_date r)),
    (validate_run_after (raw_run_after r)),
    (validate_conf (raw_conf r));
    intros H; inversion H; subst; simpl in *;
    (split; [discriminate|]);
    repeat match goal with
           | |- Forall _ [] => constructor
           | |- Forall _ (_ :: _) => constructor
           | Hf : Forall _ [?e] |- field_error ?e =>
               inversion Hf; subst; assumption
           end.
Qed.

(** X: the [ValueError] of the interval check is never reported together
    with a field error: a refusal that contains it consists of it alone,
    and every field of the body was valid. *)
Theorem interval_error_stands_alone
    (r : RawTriggerBody) (es : list error) (msg : string) :
  validate_trigger_body r = inl es ->
  In (value_error msg) es ->
  es = [value_error data_intervals_message]
  /\ exists b0, validate_trigger_fields r = inr b0
                /\ exactly_one_None (data_interval_start b0)
                                    (data_interval_end b0).
Proof.
  unfold validate_trigger_body. intros Hv Hin.
  destruct (validate_trigger_fields r) as [es0|b0] eqn:Hf.
  - inversion Hv; subst. apply validate_trigger_fields_errors in Hf as [_ Hall].
    rewrite List.Forall_forall in Hall. apply Hall in Hin. destruct Hin.
  - destruct (check_data_intervals_cases b0) as [[Hone Hc] | [Hnot Hc]];
      rewrite Hc in Hv; [|discriminate].
    inversion Hv; subst. split; [reflexivity|].
    exists b0. split; [reflexivity | exact Hone].
Qed.

(** X: a validated trigger body always has a run id: the one the request
    gives when it is a non-empty string, and otherwise (key absent, null or
    the empty string) the one generated for a manual run from the body's
    logical date and run-after timestamp. *)
Theorem trigger_body_run_id (r : RawTriggerBody) (b : TriggerDAGRunPostBody) :
  validate_trigger_body r = inr b ->
  (exists s, raw_dag_run_id r = Given s /\ s <> "" /\ dag_run_id b = Some s)
  \/ ((raw_dag_run_id r = Absent \/ raw_dag_run_id r = Null
       \/ raw_dag_run_id r = Given "")
      /\ dag_run_id b
         = Some (generate_run_id MANUAL (logical_date b) (run_after b))).
Proof.
  intros H. apply validate_trigger_body_inr in H as (b0 & Hf & _ & ->).
  apply validate_trigger_fields_inr in Hf as (Hid & _).
  unfold validate_dag_run_id.
  destruct (raw_dag_run_id r) as [| |s]; simpl in Hid;
    inversion Hid as [Hid']; simpl.
  - right. split; [left; reflexivity | reflexivity].
  - right. split; [right; left; reflexivity | reflexivity].
  - destruct s as [|c s]; simpl.
    + right. split; [right; right; reflexivity | reflexivity].
    + left. exists (String c s). repeat split; [discriminate|].
      symmetry. exact Hid'.
Qed.

(** X: whatever date a validated trigger body carries as logical date or as
    a bound of the data interval is timezone-aware, both bounds are there or
    neither, and a naive logical date is refused with an error on that
    field. *)
Theorem trigger_body_dates_aware (r : RawTriggerBody) (b : TriggerDAGRunPostBody) :
  validate_trigger_body r = inr b ->
  (forall d, logical_date b = Some d -> is_aware d = true)
  /\ (forall d, data_interval_start b = Some d -> is_aware d = true)
  /\ (forall d, data_interval_end b = Some d -> is_aware d = true)
  /\ (data_interval_start b = None <-> data_interval_end b = None).
Proof.
  intros H. apply validate_trigger_body_inr in H as (b0 & Hf & Hc & ->).
  assert (forall loc x d, validate_opt_aware loc x = inr (Some d) ->
                          is_aware d = true) as Haw.
  { intros loc [| |d0] d; simpl; try discriminate.
    unfold aware. destruct (is_aware d0) eqn:E; [|discriminate].
    intros [= <-]. exact E. }
  apply validate_trigger_fields_inr in Hf as (_ & Hs & He & Hl & _).
  assert (data_interval_start (validate_dag_run_id b0) = data_interval_start b0
          /\ data_interval_end (validate_dag_run_id b0) = data_interval_end b0
          /\ logical_date (validate_dag_run_id b0) = logical_date b0)
    as (-> & -> & ->)
      by (unfold validate_dag_run_id; destruct (negb _); repeat split).
  split; [|split; [|split]].
  - intros d Hd. rewrite Hd in Hl.
    destruct (raw_logical_date r) as [| |d0]; simpl in Hl; try discriminate.
    unfold aware in Hl. destruct (is_aware d0) eqn:E; [|discriminate].
    congruence.
  - intros d Hd. rewrite Hd in Hs. eapply Haw; eassumption.
  - intros d Hd. rewrite Hd in He. eapply Haw; eassumption.
  - destruct (check_data_intervals_cases b0) as [[_ Hc'] | [Hnot _]];
      [congruence|].
    unfold exactly_one_None in Hnot.
    destruct (data_interval_start b0), (data_interval_end b0);
      split; intros E; try discriminate; try reflexivity;
      exfalso; apply Hnot; [right | left]; split; congruence.
Qed.

(** A naive logical date is refused, naming the field. *)
Lemma naive_logical_date_refused (r : RawTriggerBody) (d : datetime) :
  raw_logical_date r = Given d -> is_aware d = false ->
  exists es, validate_trigger_body r = inl es
             /\ In (timezone_aware "logical_date") es.
Proof.
  intros H Hn. unfold validate_trigger_body, validate_trigger_fields.
  rewrite H.
  assert (validate_logical_date (Given d)
          = inl (timezone_aware "logical_date")) as ->
      by (simpl; unfold aware; rewrite Hn; reflexivity).
  destruct (validate_opt_str (raw_dag_run_id r)),
    (validate_opt_aware "data_interval_start" (raw_data_interval_start r)),
    (validate_opt_aware "data_interval_end" (raw_data_interval_end r)),
    (validate_run_after (raw_run_after r)),
    (validate_conf (raw_conf r)),
    (validate_opt_str (raw_trigger_note r));
    eexists; (split; [reflexivity|]); in_list.
Qed.

(** X: with a valid state, a PATCH body that gives a note is accepted
    exactly when the note has at most 1000 characters, and is otherwise
    refused with the single error "string too long" on [note]. *)
Theorem patch_note_max_length
    (r : RawPatchBody) (s : string) (o : option DAGRunPatchStates) :
  raw_note r = Given s ->
  validate_state (raw_state r) = inr o ->
  (validate_patch_body r = inr {| state := o; note := Some s |}
   <-> String.length s <= 1000)
  /\ (validate_patch_body r = inl [string_too_long "note"]
      <-> 1000 < String.length s).
Proof.
  intros Hn Hs. unfold validate_patch_body. rewrite Hn, Hs. simpl.
  destruct (String.length s <=? 1000)%nat eqn:E.
  - apply Nat.leb_le in E. split; split; intros H;
      try reflexivity; try discriminate; try exact E; lia.
  - apply Nat.leb_gt in E. split; split; intros H;
      try reflexivity; try discriminate; try exact E; lia.
Qed.

End Models.

(** ** Concrete requests *)

(** The strings Airflow gives the members of [DagRunState], to run the
    validators on concrete requests. *)
Definition sample_state_str (s : DagRunState.t) : string :=
  match s with
  | DagRunState.QUEUED => "queued"
  | DagRunState.RUNNING => "running"
  | DagRunState.SUCCESS => "success"
  | DagRunState.FAILED => "failed"
  end.

#[global] Instance sample_state_str_inj : Inj (=) (=) sample_state_str.
Proof. intros [] []; simpl; intros H; try reflexivity; discriminate. Qed.

(** [{"state": "success"}] *)
Definition patch_success : RawPatchBody :=
  {| raw_state := Given "success"; raw_note := Absent |}.

(** [{"state": "queued"}] *)
Definition patch_queued : RawPatchBody :=
  {| raw_state := Given "queued"; raw_note := Absent |}.

(** A run-id generator and a clock, to run the trigger validators. *)
Definition sample_generate_run_id
    (run_type : unit) (logical_date : option datetime) (run_after : datetime)
  : string := "manual__".

Definition sample_utcnow : datetime :=
  {| instant := 1700000000; utcoffset := Some 0%Z |}.

(** [{"logical_date": null}] *)
Definition trigger_null_logical_date : RawTriggerBody :=
  {| raw_dag_run_id := Absent;
     raw_data_interval_start := Absent;
     raw_data_interval_end := Absent;
     raw_logical_date := Null;
     raw_run_after := Absent;
     raw_conf := Absent;
     raw_trigger_note := Absent |}.

Definition sample_validate_trigger_body
  : RawTriggerBody -> list error + TriggerDAGRunPostBody :=
  validate_trigger_body unit tt sample_generate_run_id sample_utcnow.

(** C3 on the strings Airflow gives the states: "failed" validates to
    FAILED, "running" is refused, and "queued" validates to nothing but the
    member it names. *)
Lemma patch_states_within_dag_run_states_witness :
  validate_state sample_state_str (Given "failed") = inr (Some FAILED)
  /\ validate_state sample_state_str (Given "running")
     = inl (enum_error "state")
  /\ (forall o : option DAGRunPatchStates,
         validate_state sample_state_str (Given "queued") = inr o ->
         exists m, o = Some m /\ sample_state_str (value m) = "queued").
Proof.
  destruct (patch_states_within_dag_run_states sample_state_str unit unit)
    as (_ & _ & _ & _ & _ & H6 & H7 & H8 & _).
  split; [exact (H6 FAILED)|]. split; [exact H8|]. exact (H7 "queued").
Defined.

(** The amended C1 on the request [{"state": "success"}]. *)
Lemma patch_body_state_is_settable_witness :
  validate_patch_body sample_state_str patch_success
  = inr {| state := Some SUCCESS; note := None |}
  /\ raw_state patch_success = Given "success"
  /\ value SUCCESS <> DagRunState.RUNNING
  /\ validate_patch_body sample_state_str
       {| raw_state := Given "running"; raw_note := Absent |}
     = inl [enum_error "state"].
Proof.
  split; [reflexivity|].
  destruct (patch_body_state_is_settable sample_state_str patch_success
              {| state := Some SUCCESS; note := None |} SUCCESS
              eq_refl eq_refl) as (H1 & _ & H3 & _ & H5).
  exact (conj H1 (conj H3 H5)).
Defined.

(** C1, refuted as stated: the body [{"state": "queued"}] is accepted and
    carries QUEUED, and [{"state": "success"}] carries SUCCESS; neither is
    the outcome of a cancellation. *)
Lemma patch_body_carries_non_cancellation_state :
  validate_patch_body sample_state_str patch_queued
  = inr {| state := Some QUEUED; note := None |}
  /\ cancellation_outcome (value QUEUED) = false
  /\ validate_patch_body sample_state_str patch_success
     = inr {| state := Some SUCCESS; note := None |}
  /\ cancellation_outcome (value SUCCESS) = false
  /\ ~ (forall (r : RawPatchBody) (b : DAGRunPatchBody) (s : DAGRunPatchStates),
           validate_patch_body sample_state_str r = inr b ->
           state b = Some s ->
           cancellation_outcome (value s) = true).
Proof.
  repeat split; try reflexivity.
  intros H.
  specialize (H patch_queued {| state := Some QUEUED; note := None |} QUEUED
                eq_refl eq_refl).
  discriminate H.
Qed.

(** The amended C7 on the request [{"logical_date": null}]. *)
Lemma trigger_body_timestamps_witness :
  sample_validate_trigger_body trigger_null_logical_date
  = inr {| dag_run_id := Some "manual__";
           data_interval_start := None; data_interval_end := None;
           logical_date := None; run_after := sample_utcnow;
           conf := []; trigger_note := None |}
  /\ ((raw_logical_date trigger_null_logical_date = Null
       /\ @None datetime = None)
      \/ (exists d, raw_logical_date trigger_null_logical_date = Given d
                    /\ is_aware d = true /\ None = Some d))
  /\ ((raw_run_after trigger_null_logical_date = Absent
       /\ sample_utcnow = sample_utcnow)
      \/ raw_run_after trigger_null_logical_date = Given sample_utcnow).
Proof.
  split; [reflexivity|].
  exact (trigger_body_timestamps unit tt sample_generate_run_id sample_utcnow
           trigger_null_logical_date _ eq_refl).
Defined.

(** C7, refuted as stated: the trigger body [{"logical_date": null}] is
    accepted and the validated body has no logical date; a response may
    report [logical_date] as [None] as well. *)
Lemma trigger_body_without_logical_date :
  (exists b, sample_validate_trigger_body trigger_null_logical_date = inr b
             /\ logical_date b = None)
  /\ ~ (forall (r : RawTriggerBody) (b : TriggerDAGRunPostBody),
           sample_validate_trigger_body r = inr b -> logical_date b <> None)
  /\ ~ (forall r : DAGRunResponse unit unit, resp_logical_date unit unit r <> None).
Proof.
  split; [|split].
  - eexists. split; reflexivity.
  - intros H. eapply (H trigger_null_logical_date); reflexivity.
  - intros H.
    apply (H {| resp_dag_run_id := "manual__"; resp_dag_id := "dag";
                resp_logical_date := None; resp_queued_at := None;
                resp_start_date := None; resp_end_date := None;
                resp_data_interval_start := None;
                resp_data_interval_end := None;
                resp_run_after := sample_utcnow;
                resp_last_scheduling_decision := None;
                resp_run_type := tt;
                resp_state := DagRunState.QUEUED;
                resp_external_trigger := true;
                resp_triggered_by := tt;
                resp_conf := []; resp_note := None |}).
    reflexivity.
Qed.


(** ** [class DAGRunsBatchBody(StrictBaseModel)] *)

Record DAGRunsBatchBody : Type := {
  order_by : option string;
  page_offset : Z;
  page_limit : Z;
  dag_ids : option (list string);
  states : option (list (option DagRunState.t));
  logical_date_gte : option datetime;
  logical_date_lte : option datetime;
  start_date_gte : option datetime;
  start_date_lte : option datetime;
  end_date_gte : option datetime;
  end_date_lte : option datetime
}.

Record RawBatchBody : Type := {
  raw_order_by : field string;
  raw_page_offset : field Z;
  raw_page_limit : field Z;
  raw_dag_ids : field (list string);
  raw_states : field (list (option string));
  raw_logical_date_gte : field datetime;
  raw_logical_date_lte : field datetime;
  raw_start_date_gte : field datetime;
  raw_start_date_lte : field datetime;
  raw_end_date_gte : field datetime;
  raw_end_date_lte : field datetime
}.

(** What pydantic reports on a batch body. *)
Inductive batch_error : Type :=
| bad_field (e : error)
| not_non_negative (loc : string)   (* NonNegativeInt given a negative *)
| bad_state (index : nat).          (* states[index] is no DagRunState *)

Section Batch.

Set Default Proof Using "Type".

Context (state_str : DagRunState.t -> string).
Context `{state_str_inj : !Inj (=) (=) state_str}.

(** [DagRunState(v)]: the first member whose value equals [v]. *)
Definition DagRunState_of (v : string) : option DagRunState.t :=
  List.find (fun m => bool_decide (state_str m = v)) DagRunState.all.

(** [NonNegativeInt = default] *)
Definition validate_non_negative (loc : string) (default : Z) (r : field Z)
  : list batch_error + Z :=
  match r with
  | Absent => inr default
  | Null => inl [bad_field (none_not_allowed loc)]
  | Given z => if (0 <=? z)%Z then inr z else inl [not_non_negative loc]
  end.

(** The elements of [states], from index [i] on: [None] stays, a string must
    be the value of a member; every offending index is reported. *)
Fixpoint validate_state_items (i : nat) (l : list (option string))
  : list batch_error + list (option DagRunState.t) :=
  match l with
  | [] => inr []
  | x :: l' =>
      let rest := validate_state_items (S i) l' in
      let item : option (option DagRunState.t) :=
        match x with
        | None => Some None
        | Some v => match DagRunState_of v with
                    | Some m => Some (Some m)
                    | None => None
                    end
        end in
      match item, rest with
      | Some m, inr ms => inr (m :: ms)
      | Some _, inl es => inl es
      | None, inr _ => inl [bad_state i]
      | None, inl es => inl (bad_state i :: es)
      end
  end.

(** [states: list[DagRunState | None] | None = None] *)
Definition validate_states (r : field (list (option string)))
  : list batch_error + option (list (option DagRunState.t)) :=
  match r with
  | Absent | Null => inr None
  | Given l =>
      match validate_state_items 0 l with
      | inr ms => inr (Some ms)
      | inl es => inl es
      end
  end.

(** [loc: AwareDatetime | None = None] *)
Definition validate_batch_date (loc : string) (r : field datetime)
  : list batch_error + option datetime :=
  match r with
  | Absent | Null => inr None
  | Given d => if is_aware d then inr (Some d)
               else inl [bad_field (timezone_aware loc)]
  end.

(** [order_by: str | None = None], [dag_ids: list[str] | None = None] *)
Definition validate_optional {A} (r : field A) : list batch_error + option A :=
  match r with
  | Absent | Null => inr None
  | Given a => inr (Some a)
  end.

Definition batch_errors_of {A} (r : list batch_error + A) : list batch_error :=
  match r with inl es => es | inr _ => [] end.

Definition validate_batch_body (r : RawBatchBody)
  : list batch_error + DAGRunsBatchBody :=
  match validate_optional (raw_order_by r),
        validate_non_negative "page_offset" 0 (raw_page_offset r),
        validate_non_negative "page_limit" 100 (raw_page_limit r),
        validate_optional (raw_dag_ids r),
        validate_states (raw_states r),
        validate_batch_date "logical_date_gte" (raw_logical_date_gte r),
        validate_batch_date "logical_date_lte" (raw_logical_date_lte r),
        validate_batch_date "start_date_gte" (raw_start_date_gte r),
        validate_batch_date "start_date_lte" (raw_start_date_lte r),
        validate_batch_date "end_date_gte" (raw_end_date_gte r),
        validate_batch_date "end_date_lte" (raw_end_date_lte r)
  with
  | inr ob, inr po, inr pl, inr di, inr st, inr a, inr b, inr c, inr d,
    inr e, inr f =>
      inr {| order_by := ob; page_offset := po; page_limit := pl;
             dag_ids := di; states := st;
             logical_date_gte := a; logical_date_lte := b;
             start_date_gte := c; start_date_lte := d;
             end_date_gte := e; end_date_lte := f |}
  | rob, rpo, rpl, rdi, rst, ra, rb, rc, rd, re, rf =>
      inl (batch_errors_of rob ++ batch_errors_of rpo ++ batch_errors_of rpl
           ++ batch_errors_of rdi ++ batch_errors_of rst
           ++ batch_errors_of ra ++ batch_errors_of rb ++ batch_errors_of rc
           ++ batch_errors_of rd ++ batch_errors_of re ++ batch_errors_of rf)
  end.

(** ** What the batch validation guarantees *)

Lemma DagRunState_of_value (m : DagRunState.t) :
  DagRunState_of (state_str m) = Some m.
Proof using state_str_inj.
  unfold DagRunState_of, DagRunState.all.
  destruct m; simpl;
    repeat (case_bool_decide;
            [ try reflexivity;
              match goal with
              | Hd : state_str _ = state_str _ |- _ =>
                  apply (inj state_str) in Hd; discriminate
              end
            | try congruence ]).
Qed.

Lemma DagRunState_of_Some (v : string) (m : DagRunState.t) :
  DagRunState_of v = Some m -> state_str m = v.
Proof.
  unfold DagRunState_of. intros H. apply find_some in H as [_ H].
  now apply bool_decide_eq_true in H.
Qed.

Lemma validate_batch_body_inr (r : RawBatchBody) (b : DAGRunsBatchBody) :
  validate_batch_body r = inr b ->
  validate_non_negative "page_offset" 0 (raw_page_offset r)
  = inr (page_offset b)
  /\ validate_non_negative "page_limit" 100 (raw_page_limit r)
     = inr (page_limit b)
  /\ validate_states (raw_states r) = inr (states b)
  /\ validate_batch_date "logical_date_gte" (raw_logical_date_gte r)
     = inr (logical_date_gte b)
  /\ validate_batch_date "logical_date_lte" (raw_logical_date_lte r)
     = inr (logical_date_lte b)
  /\ validate_batch_date "start_date_gte" (raw_start_date_gte r)
     = inr (start_date_gte b)
  /\ validate_batch_date "start_date_lte" (raw_start_date_lte r)
     = inr (start_date_lte b)
  /\ validate_batch_date "end_date_gte" (raw_end_date_gte r)
     = inr (end_date_gte b)
  /\ validate_batch_date "end_date_lte" (raw_end_date_lte r)
     = inr (end_date_lte b).
Proof.
  unfold validate_batch_body.
  destruct (validate_optional (raw_order_by r)); [discriminate|].
  destruct (validate_non_negative "page_offset" 0 _); [discriminate|].
  destruct (validate_non_negative "page_limit" 100 _); [discriminate|].
  destruct (validate_optional (raw_dag_ids r)); [discriminate|].
  destruct (validate_states (raw_states r)); [discriminate|].
  destruct (validate_batch_date "logical_date_gte" _); [discriminate|].
  destruct (validate_batch_date "logical_date_lte" _); [discriminate|].
  destruct (validate_batch_date "start_date_gte" _); [discriminate|].
  destruct (validate_batch_date "start_date_lte" _); [discriminate|].
  destruct (validate_batch_date "end_date_gte" _); [discriminate|].
  destruct (validate_batch_date "end_date_lte" _); [discriminate|].
  intros [= <-]. simpl. repeat split.
Qed.

(** X: a validated batch body has non-negative paging: the offset and the
    limit are the ones given, which are at least 0, or the defaults 0 and
    100 when the keys are absent; a negative one is never accepted. *)
Theorem batch_body_paging (r : RawBatchBody) (b : DAGRunsBatchBody) :
  validate_batch_body r = inr b ->
  (0 <= page_offset b)%Z /\ (0 <= page_limit b)%Z
  /\ ((raw_page_offset r = Absent /\ page_offset b = 0%Z)
      \/ raw_page_offset r = Given (page_offset b))
  /\ ((raw_page_limit r = Absent /\ page_limit b = 100%Z)
      \/ raw_page_limit r = Given (page_limit b)).
Proof.
  intros H. apply validate_batch_body_inr in H as (Ho & Hl & _).
  assert (forall loc d x z,
             (0 <= d)%Z -> validate_non_negative loc d x = inr z ->
             (0 <= z)%Z /\ ((x = Absent /\ z = d) \/ x = Given z)) as Hnn.
  { intros loc d [| |y] z Hd; simpl; try discriminate.
    - intros [= <-]. split; [exact Hd | left; split; reflexivity].
    - destruct (0 <=? y)%Z eqn:E; [|discriminate].
      intros [= <-]. apply Z.leb_le in E. split; [exact E | right; reflexivity]. }
  destruct (Hnn _ _ _ _ (Z.le_refl 0) Ho) as [H1 H2].
  assert (0 <= 100)%Z as H100 by lia.
  destruct (Hnn _ _ _ _ H100 Hl) as [H3 H4].
  repeat split; assumption.
Qed.

(** X: every date a validated batch body filters on is timezone-aware. *)
Theorem batch_body_dates_aware (r : RawBatchBody) (b : DAGRunsBatchBody) (d : datetime) :
  validate_batch_body r = inr b ->
  In (Some d) [logical_date_gte b; logical_date_lte b; start_date_gte b;
               start_date_lte b; end_date_gte b; end_date_lte b] ->
  is_aware d = true.
Proof.
  intros H Hin.
  apply validate_batch_body_inr in H as (_ & _ & _ & H1 & H2 & H3 & H4 & H5 & H6).
  assert (forall loc x, validate_batch_date loc x = inr (Some d) ->
                        is_aware d = true) as Haw.
  { intros loc [| |d0]; simpl; try discriminate.
    destruct (is_aware d0) eqn:E; [|discriminate].
    intros [= <-]. exact E. }
  simpl in Hin.
  destruct Hin as [Hd | [Hd | [Hd | [Hd | [Hd | [Hd | []]]]]]];
    rewrite <- Hd in *; eapply Haw; eassumption.
Qed.

Lemma validate_state_items_values (l : list (option DagRunState.t)) (i : nat) :
  validate_state_items i (map (fmap state_str) l) = inr l.
Proof using state_str_inj.
  revert i. induction l as [|x l IH]; intros i; simpl; [reflexivity|].
  rewrite IH. destruct x as [m|]; simpl; [|reflexivity].
  rewrite DagRunState_of_value. reflexivity.
Qed.

(** X: the [states] filter reads back what was written: a list whose entries
    are null or the string of a DagRunState member, RUNNING included, is
    accepted and decoded to exactly those members. *)
Theorem batch_states_round_trip (l : list (option DagRunState.t)) :
  validate_states (Given (map (fmap state_str) l)) = inr (Some l).
Proof using state_str_inj.
  unfold validate_states. rewrite validate_state_items_values. reflexivity.
Qed.

(** The entry at [k] is a string that is no member's value. *)
Definition offending (l : list (option string)) (k : nat) : Prop :=
  exists v, nth_error l k = Some (Some v) /\ DagRunState_of v = None.

Lemma validate_state_items_spec (l : list (option string)) :
  forall i : nat,
    match validate_state_items i l with
    | inr ms =>
        (forall k, ~ offending l k)
        /\ length ms = length l
        /\ (forall k m, nth_error ms k = Some (Some m) ->
                        nth_error l k = Some (Some (state_str m)))
    | inl es =>
        es <> []
        /\ (forall k, In (bad_state k) es
                      <-> (i <= k /\ offending l (k - i)))
        /\ (forall e, In e es -> exists k, e = bad_state k)
    end.
Proof.
  induction l as [|x l IH]; intros i.
  - simpl. split; [|split; [reflexivity|]].
    + intros k (v & Hv & _). destruct k; discriminate.
    + intros k m H. destruct k; discriminate.
  - simpl. specialize (IH (S i)).
    assert (forall k, offending (x :: l) (S k) <-> offending l k) as Hshift
        by (intros k; unfold offending; simpl; reflexivity).
    destruct x as [v|].
    + destruct (DagRunState_of v) as [m|] eqn:Hv.
      * (* a member *)
        assert (~ offending (Some v :: l) 0) as H0.
        { intros (v' & Hn & Hnone). simpl in Hn. congruence. }
        destruct (validate_state_items (S i) l) as [es|ms].
        -- destruct IH as (Hne & Hin & Hall). split; [exact Hne|]. split.
           ++ intros k. rewrite Hin. split.
              ** intros [Hle Hoff]. split; [lia|].
                 replace (k - i) with (S (k - S i)) by lia.
                 now apply Hshift.
              ** intros [Hle Hoff]. destruct (k - i) as [|j] eqn:E;
                   [contradiction|].
                 split; [lia|]. replace (k - S i) with j by lia.
                 now apply Hshift.
           ++ exact Hall.
        -- destruct IH as (Hno & Hlen & Hnth). split; [|split].
           ++ intros [|k]; [exact H0|]. rewrite Hshift. apply Hno.
           ++ simpl. now rewrite Hlen.
           ++ intros [|k] m'; simpl.
              ** intros [= <-]. apply DagRunState_of_Some in Hv. now rewrite Hv.
              ** apply Hnth.
      * (* not a member *)
        assert (offending (Some v :: l) 0) as H0 by (exists v; split; auto).
        destruct (validate_state_items (S i) l) as [es|ms].
        -- destruct IH as (Hne & Hin & Hall). split; [discriminate|]. split.
           ++ intros k. simpl. rewrite Hin. split.
              ** intros [[= <-] | [Hle Hoff]].
                 --- split; [lia|]. now rewrite Nat.sub_diag.
                 --- split; [lia|].
                     replace (k - i) with (S (k - S i)) by lia.
                     now apply Hshift.
              ** intros [Hle Hoff]. destruct (k - i) as [|j] eqn:E.
                 --- left. f_equal. lia.
                 --- right. split; [lia|]. replace (k - S i) with j by lia.
                     now apply Hshift.
           ++ intros e [<- | He]; [now exists i | now apply Hall].
        -- destruct IH as (Hno & _). split; [discriminate|]. split.
           ++ intros k. simpl. split.
              ** intros [[= <-] | []]. split; [lia|]. now rewrite Nat.sub_diag.
              ** intros [Hle Hoff]. destruct (k - i) as [|j] eqn:E.
                 --- left. f_equal. lia.
                 --- exfalso. apply (Hno j). now apply Hshift.
           ++ intros e [<- | []]. now exists i.
    + (* null *)
      assert (~ offending (None :: l) 0) as H0.
      { intros (v' & Hn & _). simpl in Hn. discriminate. }
      destruct (validate_state_items (S i) l) as [es|ms].
      * destruct IH as (Hne & Hin & Hall). split; [exact Hne|]. split.
        -- intros k. rewrite Hin. split.
           ++ intros [Hle Hoff]. split; [lia|].
              replace (k - i) with (S (k - S i)) by lia.
              now apply Hshift.
           ++ intros [Hle Hoff]. destruct (k - i) as [|j] eqn:E;
                [contradiction|].
              split; [lia|]. replace (k - S i) with j by lia.
              now apply Hshift.
        -- exact Hall.
      * destruct IH as (Hno & Hlen & Hnth). split; [|split].
        -- intros [|k]; [exact H0|]. rewrite Hshift. apply Hno.
        -- simpl. now rewrite Hlen.
        -- intros [|k] m'; simpl; [discriminate | apply Hnth].
Qed.

(** X: a [states] list is refused exactly when some entry is a string that
    is no DagRunState, and then the errors are the indices of all those
    entries and nothing else. *)
Theorem batch_states_errors (l : list (option string)) :
  ((exists es, validate_states (Given l) = inl es)
   <-> exists k, offending l k)
  /\ (forall es, validate_states (Given l) = inl es ->
                 forall e, In e es <-> exists k, e = bad_state k /\ offending l k).
Proof.
  pose proof (validate_state_items_spec l 0) as H.
  unfold validate_states.
  destruct (validate_state_items 0 l) as [es|ms].
  - destruct H as (Hne & Hin & Hall). split.
    + split; [|intros _; now exists es].
      intros _. destruct es as [|e es]; [congruence|].
      destruct (Hall e (or_introl eq_refl)) as [k ->].
      exists k.
      destruct (proj1 (Hin k) (or_introl eq_refl)) as [_ Hk].
      now rewrite Nat.sub_0_r in Hk.
    + intros es' [= <-] e. split.
      * intros He. destruct (Hall e He) as [k ->]. exists k.
        split; [reflexivity|]. apply Hin in He as [_ He].
        now rewrite Nat.sub_0_r in He.
      * intros (k & -> & Hoff). apply Hin. split; [lia|].
        now rewrite Nat.sub_0_r.
  - destruct H as (Hno & _). split.
    + split; [intros [es Hes]; discriminate|].
      intros [k Hk]. exfalso. now apply (Hno k).
    + intros es. discriminate.
Qed.

End Batch.

(** ** The added properties on concrete requests *)

Definition aware_date (t : Z) : datetime :=
  {| instant := t; utcoffset := Some 0%Z |}.

(** [{"logical_date": null, "data_interval_start": ...}], no end. *)
Definition trigger_half_interval : RawTriggerBody :=
  {| raw_dag_run_id := Absent;
     raw_data_interval_start := Given (aware_date 10);
     raw_data_interval_end := Absent;
     raw_logical_date := Null;
     raw_run_after := Absent;
     raw_conf := Absent;
     raw_trigger_note := Absent |}.

(** [{"dag_run_id": "nightly", "logical_date": ..., both interval bounds}] *)
Definition trigger_named : RawTriggerBody :=
  {| raw_dag_run_id := Given "nightly";
     raw_data_interval_start := Given (aware_date 10);
     raw_data_interval_end := Given (aware_date 20);
     raw_logical_date := Given (aware_date 10);
     raw_run_after := Absent;
     raw_conf := Absent;
     raw_trigger_note := Absent |}.

Definition trigger_named_body : TriggerDAGRunPostBody :=
  {| dag_run_id := Some "nightly";
     data_interval_start := Some (aware_date 10);
     data_interval_end := Some (aware_date 20);
     logical_date := Some (aware_date 10);
     run_after := sample_utcnow; conf := []; trigger_note := None |}.

(** The interval error on a body with one bound. *)
Lemma interval_error_stands_alone_witness :
  sample_validate_trigger_body trigger_half_interval
  = inl [value_error data_intervals_message]
  /\ exists b0, validate_trigger_fields sample_utcnow trigger_half_interval
                = inr b0
                /\ exactly_one_None (data_interval_start b0)
                                    (data_interval_end b0).
Proof.
  split; [reflexivity|].
  exact (proj2 (interval_error_stands_alone unit tt sample_generate_run_id
                  sample_utcnow trigger_half_interval _
                  data_intervals_message eq_refl (or_introl eq_refl))).
Defined.

(** The run id of a body that names it. *)
Lemma trigger_body_run_id_witness :
  sample_validate_trigger_body trigger_named = inr trigger_named_body
  /\ ((exists s, raw_dag_run_id trigger_named = Given s /\ s <> ""
                 /\ dag_run_id trigger_named_body = Some s)
      \/ ((raw_dag_run_id trigger_named = Absent
           \/ raw_dag_run_id trigger_named = Null
           \/ raw_dag_run_id trigger_named = Given "")
          /\ dag_run_id trigger_named_body
             = Some (sample_generate_run_id tt (logical_date trigger_named_body)
                       (run_after trigger_named_body)))).
Proof.
  split; [reflexivity|].
  exact (trigger_body_run_id unit tt sample_generate_run_id sample_utcnow
           trigger_named trigger_named_body eq_refl).
Defined.

(** The dates of the same body. *)
Lemma trigger_body_dates_aware_witness :
  sample_validate_trigger_body trigger_named = inr trigger_named_body
  /\ is_aware (aware_date 10) = true.
Proof.
  split; [reflexivity|].
  exact (proj1 (trigger_body_dates_aware unit tt sample_generate_run_id
                  sample_utcnow trigger_named trigger_named_body eq_refl)
               (aware_date 10) eq_refl).
Defined.

(** [{"state": "failed", "note": "rerun"}] *)
Definition patch_with_note : RawPatchBody :=
  {| raw_state := Given "failed"; raw_note := Given "rerun" |}.

Lemma patch_note_max_length_witness :
  validate_state sample_state_str (raw_state patch_with_note)
  = inr (Some FAILED)
  /\ validate_patch_body sample_state_str patch_with_note
     = inr {| state := Some FAILED; note := Some "rerun" |}.
Proof.
  split; [reflexivity|].
  apply (proj1 (patch_note_max_length sample_state_str patch_with_note "rerun"
                  (Some FAILED) eq_refl eq_refl)).
  apply Nat.leb_le. reflexivity.
Defined.

(** [{"page_limit": 25, "states": ["running", null], "start_date_gte": ...}] *)
Definition batch_request : RawBatchBody :=
  {| raw_order_by := Absent;
     raw_page_offset := Absent;
     raw_page_limit := Given 25%Z;
     raw_dag_ids := Absent;
     raw_states := Given [Some "running"; None];
     raw_logical_date_gte := Absent;
     raw_logical_date_lte := Absent;
     raw_start_date_gte := Given (aware_date 10);
     raw_start_date_lte := Absent;
     raw_end_date_gte := Absent;
     raw_end_date_lte := Absent |}.

Definition batch_request_body : DAGRunsBatchBody :=
  {| order_by := None; page_offset := 0; page_limit := 25; dag_ids := None;
     states := Some [Some DagRunState.RUNNING; None];
     logical_date_gte := None; logical_date_lte := None;
     start_date_gte := Some (aware_date 10); start_date_lte := None;
     end_date_gte := None; end_date_lte := None |}.

Lemma batch_body_paging_witness :
  validate_batch_body sample_state_str batch_request = inr batch_request_body
  /\ (0 <= 0)%Z /\ (0 <= 25)%Z.
Proof.
  split; [reflexivity|].
  destruct (batch_body_paging sample_state_str batch_request
              batch_request_body eq_refl) as (H1 & H2 & _).
  exact (conj H1 H2).
Defined.

Lemma batch_body_dates_aware_witness :
  validate_batch_body sample_state_str batch_request = inr batch_request_body
  /\ is_aware (aware_date 10) = true.
Proof.
  split; [reflexivity|].
  apply (batch_body_dates_aware sample_state_str batch_request
           batch_request_body (aware_date 10) eq_refl).
  simpl. right. right. left. reflexivity.
Defined.

Lemma batch_states_round_trip_witness :
  validate_states sample_state_str (Given [Some "running"; None; Some "queued"])
  = inr (Some [Some DagRunState.RUNNING; None; Some DagRunState.QUEUED]).
Proof.
  exact (batch_states_round_trip sample_state_str
           [Some DagRunState.RUNNING; None; Some DagRunState.QUEUED]).
Defined.

(** The errors on a list with two strings that are no state. *)
Lemma batch_states_errors_witness :
  (exists k, offending sample_state_str
               [Some "done"; Some "failed"; None; Some "RUNNING"] k)
  /\ (In (bad_state 3) [bad_state 0; bad_state 3]
      <-> exists k, bad_state 3 = bad_state k
                    /\ offending sample_state_str
                         [Some "done"; Some "failed"; None; Some "RUNNING"] k).
Proof.
  pose proof (batch_states_errors sample_state_str
                [Some "done"; Some "failed"; None; Some "RUNNING"])
    as [Hiff Herr].
  split.
  - apply Hiff. eexists. reflexivity.
  - exact (Herr [bad_state 0; bad_state 3] eq_refl (bad_state 3)).
Defined.

(** A list with two strings that are no state: both indices are reported. *)
Example batch_states_two_errors :
  validate_states sample_state_str
    (Given [Some "done"; Some "failed"; None; Some "RUNNING"])
  = inl [bad_state 0; bad_state 3].
Proof. reflexivity. Qed.

End DagRunModels.

(* ===================================================================== *)
(** * [airflow/api_internal/internal_api_call.py] *)
(* ===================================================================== *)

Module InternalApi.

Section Decorator.

(** The values functions take and return, what they raise, and the state of
    the world a call runs in. *)
Context {Value Exn World : Type}.

(** What a call does: it raises or returns, and leaves a world behind. *)
Definition outcome : Type := (Exn + Value) * World.

(** A Python function object: the attributes [functools.wraps] copies, and
    its behaviour on the positional and keyword
    arguments it is called with. *)
#[warnings="-register-all"]
Inductive callable : Type :=
| Callable (name : string) (doc : option string) (wrapped : option callable)
           (call : list Value -> list (string * Value) -> World -> outcome).

Definition __name__ (f : callable) : string :=
  match f with Callable n _ _ _ => n end.

Definition __doc__ (f : callable) : option string :=
  match f with Callable _ d _ _ => d end.

Definition __wrapped__ (f : callable) : option callable :=
  match f with Callable _ _ w _ => w end.

(** Calling [f] with positional arguments [args] and keyword arguments
    [kwargs]. *)
Definition call (f : callable)
  : list Value -> list (string * Value) -> World -> outcome :=
  match f with Callable _ _ _ c => c end.

(** [functools.wraps(func)]: the wrapper takes the name and the docstring of
    [func] and remembers it as [__wrapped__]; its behaviour stays its own. *)
Definition wraps (func wrapper : callable) : callable :=
  Callable (__name__ func) (__doc__ func) (Some func) (call wrapper).

(** [def internal_api_call(func)] *)
Definition internal_api_call (func : callable) : callable :=
  let wrapper :=
    Callable "wrapper" None None
             (fun args kwargs => call func args kwargs) in
  wraps func wrapper.

(** C10. Calling the decorated function is calling the function: on every
    argument list and in every world, calling [internal_api_call(f)] returns
    what calling [f] on the same arguments returns, raises what it raises, and
    leaves the same world; the decorated function also keeps the name and
    the docstring of [f]. *)
Theorem internal_api_call_is_func (func : callable) :
  (forall (args : list Value) (kwargs : list (string * Value)) (w : World),
      call (internal_api_call func) args kwargs w = call func args kwargs w)
  /\ __name__ (internal_api_call func) = __name__ func
  /\ __doc__ (internal_api_call func) = __doc__ func
  /\ __wrapped__ (internal_api_call func) = Some func.
Proof.
  unfold internal_api_call, wraps.
  destruct func as [n d w c]; simpl.
  repeat split.
Qed.

(** Decorating twice changes nothing either. *)
Lemma internal_api_call_twice (func : callable) args kwargs (w : World) :
  call (internal_api_call (internal_api_call func)) args kwargs w
  = call func args kwargs w.
Proof. destruct func; reflexivity. Qed.

(** ** Decorating more than once *)

(** [internal_api_call] applied [n] times. *)
Fixpoint decorate (n : nat) (func : callable) : callable :=
  match n with
  | O => func
  | S n' => internal_api_call (decorate n' func)
  end.

(** Following [__wrapped__] [n] times. *)
Fixpoint unwrap (n : nat) (f : callable) : option callable :=
  match n with
  | O => Some f
  | S n' =>
      match __wrapped__ f with
      | Some g => unwrap n' g
      | None => None
      end
  end.

(** X: a function decorated any number of times still behaves as the
    function itself and keeps its name and docstring, and following
    [__wrapped__] as many times leads back to it. *)
Theorem decorate_any_number (n : nat) (func : callable) :
  (forall (args : list Value) (kwargs : list (string * Value)) (w : World),
      call (decorate n func) args kwargs w = call func args kwargs w)
  /\ __name__ (decorate n func) = __name__ func
  /\ __doc__ (decorate n func) = __doc__ func
  /\ unwrap n (decorate n func) = Some func.
Proof.
  induction n as [|n (IHcall & IHname & IHdoc & IHunwrap)]; simpl.
  - repeat split.
  - unfold internal_api_call, wraps. simpl. repeat split.
    + intros args kwargs w. apply IHcall.
    + exact IHname.
    + exact IHdoc.
    + exact IHunwrap.
Qed.

End Decorator.

End InternalApi.

(* ===================================================================== *)
(** * Python [str] operations used by the transfer operator *)
(* ===================================================================== *)

Module Str.

Local Open Scope string_scope.

(** [s.count(c)] for a one-character [c]. *)
Fixpoint count (c : ascii) (s : string) : nat :=
  match s with
  | EmptyString => 0
  | String a s' => (if Ascii.eqb a c then 1 else 0) + count c s'
  end.

(** [c in s] for a one-character [c]. *)
Fixpoint contains (c : ascii) (s : string) : bool :=
  match s with
  | EmptyString => false
  | String a s' => Ascii.eqb a c || contains c s'
  end.

(** [s.lstrip(c)] *)
Fixpoint lstrip (c : ascii) (s : string) : string :=
  match s with
  | EmptyString => EmptyString
  | String a s' => if Ascii.eqb a c then lstrip c s' else s
  end.

Definition rev (s : string) : string :=
  string_of_list_ascii (List.rev (list_ascii_of_string s)).

(** [s.rstrip(c)] *)
Definition rstrip (c : ascii) (s : string) : string :=
  rev (lstrip c (rev s)).

(** [s.strip(c)] *)
Definition strip (c : ascii) (s : string) : string :=
  rstrip c (lstrip c s).

(** [s.startswith(p)] *)
Definition startswith (p s : string) : bool := String.prefix p s.

(** [s[n:]] *)
Fixpoint drop (n : nat) (s : string) : string :=
  match n, s with
  | O, _ => s
  | S _, EmptyString => EmptyString
  | S n', String _ s' => drop n' s'
  end.

(** [s.split(c, 1)]: one element when [c] does not occur, otherwise what
    stands before the first [c] and what stands after it. *)
Fixpoint split1 (c : ascii) (s : string) : list string :=
  match s with
  | EmptyString => [EmptyString]
  | String a s' =>
      if Ascii.eqb a c then [EmptyString; s']
      else match split1 c s' with
           | [p; d] => [String a p; d]
           | _ => [s]
           end
  end.

(** [s.rsplit(c, 1)]: the same from the right. *)
Definition rsplit1 (c : ascii) (s : string) : list string :=
  match split1 c (rev s) with
  | [after; before] => [rev before; rev after]
  | _ => [s]
  end.

(** [s.replace(old, new, 1)]: the first occurrence of [old] is replaced; an
    empty [old] occurs at the very start. *)
Fixpoint replace1 (old new s : string) : string :=
  if String.prefix old s then new ++ drop (String.length old) s
  else match s with
       | EmptyString => EmptyString
       | String a s' => String a (replace1 old new s')
       end.

(** Every character of [s] is [c]. *)
Fixpoint all_char (c : ascii) (s : string) : bool :=
  match s with
  | EmptyString => true
  | String a s' => Ascii.eqb a c && all_char c s'
  end.

(** [p[:p.rfind(c) + 1]]: [p] up to and including its last [c]. *)
Fixpoint upto_last (c : ascii) (p : string) : string :=
  match p with
  | EmptyString => EmptyString
  | String a p' =>
      if contains c p' then String a (upto_last c p')
      else if Ascii.eqb a c then String a EmptyString
      else EmptyString
  end.

(** [os.path.dirname(p)] of [posixpath]: the head of [p] up to its last
    slash, without trailing slashes unless it consists of slashes only. *)
Definition dirname (p : string) : string :=
  let head := upto_last "/" p in
  if negb (String.eqb head "") && negb (all_char "/" head)
  then rstrip "/" head
  else head.

(** [str(n)] *)
Definition of_nat (n : nat) : string :=
  DecimalString.NilEmpty.string_of_uint (Nat.to_uint n).

End Str.

Module StrTests.

Example count_two : Str.count "*" "/a/*/b*" = 2.
Proof. reflexivity. Qed.

Example split1_wildcard : Str.split1 "*" "/tmp/f*.csv" = ["/tmp/f"; ".csv"].
Proof. reflexivity. Qed.

Example split1_absent : Str.split1 "*" "/tmp/f.csv" = ["/tmp/f.csv"].
Proof. reflexivity. Qed.

Example rsplit1_path : Str.rsplit1 "/" "/tmp/dir/f.csv" = ["/tmp/dir"; "f.csv"].
Proof. reflexivity. Qed.

Example rsplit1_absent : Str.rsplit1 "/" "f.csv" = ["f.csv"].
Proof. reflexivity. Qed.

Example dirname_file : Str.dirname "/tmp/dir/f" = "/tmp/dir".
Proof. reflexivity. Qed.

Example dirname_root : Str.dirname "//f" = "//".
Proof. reflexivity. Qed.

Example dirname_plain : Str.dirname "f" = "".
Proof. reflexivity. Qed.

Example dirname_slashes : Str.dirname "/tmp//f" = "/tmp".
Proof. reflexivity. Qed.

Example replace1_first : Str.replace1 "/tmp" "dst" "/tmp/a/tmp/b" = "dst/a/tmp/b".
Proof. reflexivity. Qed.

Example replace1_empty_old : Str.replace1 "" "dst" "a/b" = "dsta/b".
Proof. reflexivity. Qed.

Example replace1_absent : Str.replace1 "/x" "dst" "/tmp/a" = "/tmp/a".
Proof. reflexivity. Qed.

Example strip_bucket : Str.strip "/" "/bucket//" = "bucket".
Proof. reflexivity. Qed.

Example of_nat_12 : Str.of_nat 12 = "12".
Proof. reflexivity. Qed.

Example of_nat_0 : Str.of_nat 0 = "0".
Proof. reflexivity. Qed.

End StrTests.

(* ===================================================================== *)
(** * [providers/google/cloud/transfers/sftp_to_gcs.py] *)
(* ===================================================================== *)

Module SftpToGcs.

Local Open Scope string_scope.

(** [WILDCARD = "*"] *)
Definition WILDCARD : ascii := "*".

(** The attributes [__init__] stores. *)
Record SFTPToGCSOperator : Type := {
  source_path : string;
  destination_path : option string;
  destination_bucket : string;
  gcp_conn_id : string;
  mime_type : string;
  gzip : bool;
  sftp_conn_id : string;
  move_object : bool;
  impersonation_chain : option (list string);
  sftp_prefetch : bool;
  use_stream : bool
}.

(** What [execute] can raise. *)
Inductive exn : Type :=
| AirflowException (msg : string)
| IndexError                      (* [list index out of range] *)
| ValueError                      (* a two-name unpacking of another length *)
| HookError (what : string).      (* whatever a hook raises *)

(** The calls [execute] makes on the SFTP and GCS hooks. *)
Inductive event : Type :=
| get_tree_map (base_path prefix delimiter : string)
| get_bucket (bucket : string)
| blob_open (bucket object_name : string)
| retrieve_file (remote : string) (to_stream prefetch : bool)
| upload (bucket object_name mime : string) (gz : bool)
| delete_file (remote : string).

(** The servers behind the hooks: given the calls made so far, whether a
    call raises, and the files a listing finds. *)
Record World : Type := {
  raises : list event -> event -> option exn;
  files_found : list event -> string -> string -> string -> list string
}.

(** The operator as [execute] leaves it, and the calls it made. *)
Record state : Type := {
  self : SFTPToGCSOperator;
  trace : list event
}.

(** A computation raises or returns, and leaves a state. *)
Definition M (A : Type) : Type := state -> (exn + A) * state.

Definition ret {A} (a : A) : M A := fun st => (inr a, st).

Definition raise {A} (e : exn) : M A := fun st => (inl e, st).

Definition bind {A B} (m : M A) (k : A -> M B) : M B :=
  fun st =>
    match m st with
    | (inl e, st') => (inl e, st')
    | (inr a, st') => k a st'
    end.

Notation "x <- m ;; k" := (bind m (fun x => k))
  (at level 100, m at next level, right associativity).
Notation "m ;;; k" := (bind m (fun _ => k))
  (at level 100, right associativity).

Definition get_self : M SFTPToGCSOperator := fun st => (inr (self st), st).

Definition set_self (o : SFTPToGCSOperator) : M unit :=
  fun st => (inr tt, {| self := o; trace := trace st |}).

(** [for x in xs: body(x)] *)
Fixpoint for_each {A} (xs : list A) (body : A -> M unit) : M unit :=
  match xs with
  | [] => ret tt
  | x :: xs' => body x ;;; for_each xs' body
  end.

(** [@staticmethod def _set_destination_path(path)] *)
Definition _set_destination_path (path : option string) : string :=
  match path with
  | Some path =>
      if Str.startswith "/" path then Str.lstrip "/" path else path
  | None => ""
  end.

(** [@staticmethod def _set_bucket_name(name)] *)
Definition _set_bucket_name (name : string) : string :=
  let bucket := if negb (Str.startswith "gs://" name) then name
                else Str.drop 5 name in
  Str.strip "/" bucket.

(** The message of the exception for more than one wildcard. *)
Definition wildcard_message (total_wildcards : nat) (path : string) : string :=
  "Only one wildcard '*' is allowed in source_path parameter. "
  ++ "Found " ++ Str.of_nat total_wildcards ++ " in " ++ path ++ ".".

(** [ret] and [get_self] raise nothing. *)
Ltac no_raise :=
  let H := fresh "H" in
  unfold ret, get_self; intros H; inversion H.

Section Execute.

Context (w : World).

(** A call on a hook: it is recorded, and raises when the world says so. *)
Definition hook (e : event) : M unit :=
  fun st =>
    let st' := {| self := self st; trace := trace st ++ [e] |} in
    match raises w (trace st) e with
    | Some x => (inl x, st')
    | None => (inr tt, st')
    end.

(** [files, _, _ = self.sftp_hook.get_tree_map(base_path, prefix=..., delimiter=...)] *)
Definition sftp_get_tree_map (base_path prefix delimiter : string)
  : M (list string) :=
  fun st =>
    match hook (get_tree_map base_path prefix delimiter) st with
    | (inl x, st') => (inl x, st')
    | (inr _, st') =>
        (inr (files_found w (trace st) base_path prefix delimiter), st')
    end.

(** [def _copy_single_object(self, gcs_hook, sftp_hook, source_path, destination_object)] *)
Definition _copy_single_object (source_path destination_object : string)
  : M unit :=
  self <- get_self ;;
  (if use_stream self then
     hook (get_bucket (destination_bucket self)) ;;;
     hook (blob_open (destination_bucket self) destination_object) ;;;
     hook (retrieve_file source_path true (sftp_prefetch self))
   else
     hook (retrieve_file source_path false (sftp_prefetch self)) ;;;
     hook (upload (destination_bucket self) destination_object
                  (mime_type self) (gzip self))) ;;;
  if move_object self then hook (delete_file source_path) else ret tt.

(** [def execute(self, context)]. Building the hook objects
    ([GCSHook(...)], the cached [SFTPHook(...)]) and logging call no server
    and are left out; every method called on a hook is a [hook] step. *)
Definition execute : M unit :=
  self0 <- get_self ;;
  let destination := _set_destination_path (destination_path self0) in
  let bucket := _set_bucket_name (destination_bucket self0) in
  set_self {| source_path := source_path self0;
              destination_path := Some destination;
              destination_bucket := bucket;
              gcp_conn_id := gcp_conn_id self0;
              mime_type := mime_type self0;
              gzip := gzip self0;
              sftp_conn_id := sftp_conn_id self0;
              move_object := move_object self0;
              impersonation_chain := impersonation_chain self0;
              sftp_prefetch := sftp_prefetch self0;
              use_stream := use_stream self0 |} ;;;
  self <- get_self ;;
  if Str.contains WILDCARD (source_path self) then
    let total_wildcards := Str.count WILDCARD (source_path self) in
    if (1 <? total_wildcards)%nat then
      raise (AirflowException
               (wildcard_message total_wildcards (source_path self)))
    else
      match Str.split1 WILDCARD (source_path self) with
      | [prefix; delimiter] =>
          let base_path := Str.dirname prefix in
          files <- sftp_get_tree_map base_path prefix delimiter ;;
          for_each files (fun file =>
            let destination_path := Str.replace1 base_path destination file in
            let destination_path :=
              if negb (truthy (Some destination))
              then Str.lstrip "/" destination_path
              else destination_path in
            _copy_single_object file destination_path)
      | _ => raise ValueError
      end
  else
    destination_object <-
      (if truthy (Some destination) then ret destination
       else match Str.rsplit1 "/" (source_path self) with
            | _ :: last :: _ => ret last
            | _ => raise IndexError
            end) ;;
    _copy_single_object (source_path self) destination_object.

(** Running [execute] on a freshly built operator. *)
Definition run (op : SFTPToGCSOperator) : (exn + unit) * state :=
  execute {| self := op; trace := [] |}.

(** ** The wildcard check *)

(** An exception that a hook raised: the world answers some call with it. *)
Definition from_hook (e : exn) : Prop :=
  exists (calls : list event) (ev : event), raises w calls ev = Some e.

Lemma hook_raises (ev : event) (st st' : state) (e : exn) :
  hook ev st = (inl e, st') -> from_hook e.
Proof.
  unfold hook. intros H.
  destruct (raises w (trace st) ev) as [x|] eqn:E; inversion H; subst.
  now exists (trace st), ev.
Qed.

Lemma bind_raises {A B} (m : M A) (k : A -> M B) (P : exn -> Prop) :
  (forall s s' x, m s = (inl x, s') -> P x) ->
  (forall a s s' x, k a s = (inl x, s') -> P x) ->
  forall st st' e, bind m k st = (inl e, st') -> P e.
Proof.
  unfold bind. intros Hm Hk st st' e H.
  destruct (m st) as [[x|a] s1] eqn:E.
  - inversion H; subst. eapply Hm; eassumption.
  - eapply Hk; eassumption.
Qed.

Lemma bind_get_self {B} (k : SFTPToGCSOperator -> M B) (st : state) :
  bind get_self k st = k (self st) st.
Proof. reflexivity. Qed.

Lemma bind_set_self {B} (o : SFTPToGCSOperator) (k : unit -> M B) (st : state) :
  bind (set_self o) k st = k tt {| self := o; trace := trace st |}.
Proof. reflexivity. Qed.

Lemma copy_single_object_raises (src dst : string) (st st' : state) (e : exn) :
  _copy_single_object src dst st = (inl e, st') -> from_hook e.
Proof.
  unfold _copy_single_object. revert st st' e.
  apply bind_raises; [intros s s' x; no_raise|].
  intros o.
  apply bind_raises.
  - destruct (use_stream o);
      repeat (apply bind_raises; [intros ? ? ?; apply hook_raises|intros _]);
      intros ? ? ?; apply hook_raises.
  - intros _ s1 s1' x1. destruct (move_object o).
    + apply hook_raises.
    + no_raise.
Qed.

Lemma for_each_raises {A} (xs : list A) (body : A -> M unit) (P : exn -> Prop) :
  (forall a s s' x, body a s = (inl x, s') -> P x) ->
  forall st st' e, for_each xs body st = (inl e, st') -> P e.
Proof.
  intros Hbody. induction xs as [|a xs IH]; simpl.
  - intros st st' e. no_raise.
  - apply bind_raises; [apply Hbody|]. intros _. apply IH.
Qed.

Lemma tree_map_raises (b p d : string) (st st' : state) (e : exn) :
  sftp_get_tree_map b p d st = (inl e, st') -> from_hook e.
Proof.
  unfold sftp_get_tree_map. intros H.
  destruct (hook (get_tree_map b p d) st) as [[x|u] s1] eqn:E;
    inversion H; subst.
  eapply hook_raises; eassumption.
Qed.

End Execute.

(** [c in s] says that [s.count(c)] is positive. *)
Lemma contains_count (c : ascii) (s : string) :
  Str.contains c s = (0 <? Str.count c s)%nat.
Proof.
  induction s as [|a s IH]; simpl; [reflexivity|].
  destruct (Ascii.eqb a c); simpl; [reflexivity | exact IH].
Qed.

(** Where [c] occurs, [s.split(c, 1)] has two elements. *)
Lemma split1_contains (c : ascii) (s : string) :
  Str.contains c s = true -> exists p d, Str.split1 c s = [p; d].
Proof.
  induction s as [|a s IH]; simpl; [discriminate|].
  destruct (Ascii.eqb a c); simpl.
  - intros _. now exists EmptyString, s.
  - intros H. destruct (IH H) as (p & d & ->). now exists (String a p), d.
Qed.

(** The operator once [execute] has normalised its destination. *)
Definition normalised (op : SFTPToGCSOperator) : SFTPToGCSOperator :=
  {| source_path := source_path op;
     destination_path := Some (_set_destination_path (destination_path op));
     destination_bucket := _set_bucket_name (destination_bucket op);
     gcp_conn_id := gcp_conn_id op;
     mime_type := mime_type op;
     gzip := gzip op;
     sftp_conn_id := sftp_conn_id op;
     move_object := move_object op;
     impersonation_chain := impersonation_chain op;
     sftp_prefetch := sftp_prefetch op;
     use_stream := use_stream op |}.

(** C9. With two or more wildcards in [source_path], [execute] raises the
    [AirflowException] of the wildcard check and no call on a hook has been
    made by then; with at most one wildcard, whatever [execute] raises is
    not from the wildcard check: it is the [IndexError] of the indexing of
    [rsplit], or an exception that a hook raised. *)
Theorem execute_wildcard_check (w : World) (op : SFTPToGCSOperator) :
  (2 <= Str.count WILDCARD (source_path op) ->
   run w op
   = (inl (AirflowException
             (wildcard_message (Str.count WILDCARD (source_path op))
                               (source_path op))),
      {| self := normalised op; trace := [] |}))
  /\ (Str.count WILDCARD (source_path op) <= 1 ->
      forall (e : exn) (st : state),
        run w op = (inl e, st) -> e = IndexError \/ from_hook w e).
Proof.
  split.
  - intros Hn. unfold run, execute, bind, get_self, set_self, raise. simpl.
    rewrite contains_count.
    destruct (0 <? Str.count WILDCARD (source_path op))%nat eqn:E0;
      [|apply Nat.ltb_ge in E0; lia].
    destruct (1 <? Str.count WILDCARD (source_path op))%nat eqn:E1;
      [|apply Nat.ltb_ge in E1; lia].
    reflexivity.
  - intros Hn e st. unfold run, execute.
    rewrite bind_get_self, bind_set_self, bind_get_self. simpl.
    destruct (Str.contains WILDCARD (source_path op)) eqn:Ec.
    + destruct (1 <? Str.count WILDCARD (source_path op))%nat eqn:E1;
        [apply Nat.ltb_lt in E1; lia|].
      destruct (split1_contains _ _ Ec) as (p & d & ->).
      intros Hrun. right. revert Hrun.
      apply bind_raises; [intros ? ? ?; apply tree_map_raises|].
      intros files. apply for_each_raises.
      intros file ? ? ?. apply copy_single_object_raises.
    + apply (bind_raises _ _ (fun e => e = IndexError \/ from_hook w e)).
      * intros s3 s3' x3.
        destruct (_set_destination_path (destination_path op));
          [|no_raise].
        destruct (Str.rsplit1 "/" (source_path op)) as [|? [|? ?]];
          unfold raise, ret; intros H; inversion H; auto.
      * intros ? ? ? ? H. right. revert H. apply copy_single_object_raises.
Qed.

(** ** Concrete runs *)

(** Servers that never fail and always list the same two files. *)
Definition quiet_world : World :=
  {| raises := fun _ _ => None;
     files_found := fun _ _ _ _ => ["/tmp/a.csv"; "/tmp/sub/b.csv"] |}.

Definition transfer (path : string) (destination : option string)
  : SFTPToGCSOperator :=
  {| source_path := path;
     destination_path := destination;
     destination_bucket := "gs://bucket/";
     gcp_conn_id := "google_cloud_default";
     mime_type := "application/octet-stream";
     gzip := false;
     sftp_conn_id := "ssh_default";
     move_object := false;
     impersonation_chain := None;
     sftp_prefetch := true;
     use_stream := false |}.

Example run_one_wildcard :
  run quiet_world (transfer "/tmp/*.csv" None)
  = (inr tt,
     {| self := normalised (transfer "/tmp/*.csv" None);
        trace := [get_tree_map "/tmp" "/tmp/" ".csv";
                  retrieve_file "/tmp/a.csv" false true;
                  upload "bucket" "a.csv" "application/octet-stream" false;
                  retrieve_file "/tmp/sub/b.csv" false true;
                  upload "bucket" "sub/b.csv" "application/octet-stream" false] |}).
Proof. reflexivity. Qed.

Example run_no_wildcard :
  run quiet_world (transfer "/tmp/x.csv" (Some "/in/x.csv"))
  = (inr tt,
     {| self := normalised (transfer "/tmp/x.csv" (Some "/in/x.csv"));
        trace := [retrieve_file "/tmp/x.csv" false true;
                  upload "bucket" "in/x.csv" "application/octet-stream" false] |}).
Proof. reflexivity. Qed.

(** C9 on a path with two wildcards, and on one without a slash. *)
Lemma execute_wildcard_check_witness :
  run quiet_world (transfer "/tmp/*/*.csv" None)
  = (inl (AirflowException
            "Only one wildcard '*' is allowed in source_path parameter. Found 2 in /tmp/*/*.csv."),
     {| self := normalised (transfer "/tmp/*/*.csv" None); trace := [] |})
  /\ (IndexError = IndexError \/ from_hook quiet_world IndexError).
Proof.
  split.
  - apply (proj1 (execute_wildcard_check quiet_world
                    (transfer "/tmp/*/*.csv" None))).
    vm_compute. lia.
  - apply (proj2 (execute_wildcard_check quiet_world (transfer "x.csv" None)))
      with (st := {| self := normalised (transfer "x.csv" None); trace := [] |}).
    + vm_compute. lia.
    + reflexivity.
Defined.

(** ** Facts on the string operations *)

(** The first and the last character of a string. *)
Definition head (s : string) : option ascii :=
  match s with
  | EmptyString => None
  | String a _ => Some a
  end.

Fixpoint last (s : string) : option ascii :=
  match s with
  | EmptyString => None
  | String a EmptyString => Some a
  | String _ s' => last s'
  end.

Lemma startswith_head (c : ascii) (s : string) :
  Str.startswith (String c "") s = true <-> head s = Some c.
Proof.
  unfold Str.startswith. destruct s as [|a s]; simpl.
  - split; discriminate.
  - destruct (ascii_dec c a) as [->|Hne].
    + split; [reflexivity | destruct s; reflexivity].
    + split; [discriminate | intros [= ->]; contradiction].
Qed.

Lemma lstrip_head (c : ascii) (s : string) : head (Str.lstrip c s) <> Some c.
Proof.
  induction s as [|a s IH]; simpl; [discriminate|].
  destruct (Ascii.eqb a c) eqn:E; [exact IH|].
  simpl. intros [= ->]. rewrite Ascii.eqb_refl in E. discriminate.
Qed.

Lemma lstrip_id (c : ascii) (s : string) :
  head s <> Some c -> Str.lstrip c s = s.
Proof.
  destruct s as [|a s]; simpl; [reflexivity|].
  destruct (Ascii.eqb a c) eqn:E; [|reflexivity].
  apply Ascii.eqb_eq in E. subst a. intros H. now contradiction H.
Qed.

Lemma append_cons (a : ascii) (s1 s2 : string) :
  (String a s1 ++ s2)%string = String a (s1 ++ s2)%string.
Proof. reflexivity. Qed.

Lemma string_of_list_ascii_app (l1 l2 : list ascii) :
  string_of_list_ascii (l1 ++ l2)%list
  = (string_of_list_ascii l1 ++ string_of_list_ascii l2)%string.
Proof.
  induction l1 as [|a l1 IH]; simpl; [reflexivity|].
  now rewrite append_cons, IH.
Qed.

Lemma list_ascii_of_string_app (s1 s2 : string) :
  list_ascii_of_string (s1 ++ s2)%string
  = (list_ascii_of_string s1 ++ list_ascii_of_string s2)%list.
Proof.
  induction s1 as [|a s1 IH]; [reflexivity|].
  rewrite append_cons. simpl. now rewrite IH.
Qed.

Lemma rev_cons (a : ascii) (s : string) :
  Str.rev (String a s) = (Str.rev s ++ String a "")%string.
Proof. unfold Str.rev. simpl. now rewrite string_of_list_ascii_app. Qed.

Lemma rev_app (s1 s2 : string) :
  Str.rev (s1 ++ s2)%string = (Str.rev s2 ++ Str.rev s1)%string.
Proof.
  unfold Str.rev.
  now rewrite list_ascii_of_string_app, List.rev_app_distr,
    string_of_list_ascii_app.
Qed.

Lemma rev_involutive (s : string) : Str.rev (Str.rev s) = s.
Proof.
  unfold Str.rev.
  now rewrite list_ascii_of_string_of_list_ascii, List.rev_involutive,
    string_of_list_ascii_of_string.
Qed.

Lemma append_empty_r (s : string) : (s ++ "")%string = s.
Proof.
  induction s as [|a s IH]; [reflexivity|]. now rewrite append_cons, IH.
Qed.

Lemma append_assoc (s1 s2 s3 : string) :
  ((s1 ++ s2) ++ s3)%string = (s1 ++ s2 ++ s3)%string.
Proof.
  induction s1 as [|a s1 IH]; [reflexivity|]. now rewrite !append_cons, IH.
Qed.

Lemma last_snoc (s : string) (a : ascii) :
  last (s ++ String a "")%string = Some a.
Proof.
  induction s as [|b s IH]; [reflexivity|].
  rewrite append_cons. simpl.
  destruct (s ++ String a "")%string eqn:E; [|exact IH].
  destruct s; discriminate.
Qed.

Lemma head_rev (s : string) : head (Str.rev s) = last s.
Proof.
  induction s as [|a s IH]; [reflexivity|].
  rewrite rev_cons. destruct s as [|b s]; [reflexivity|].
  change (last (String a (String b s))) with (last (String b s)).
  rewrite <- IH.
  destruct (Str.rev (String b s)) eqn:E; [|reflexivity].
  apply (f_equal Str.rev) in E. rewrite rev_involutive in E. discriminate.
Qed.

Lemma last_rev (s : string) : last (Str.rev s) = head s.
Proof. rewrite <- head_rev. now rewrite rev_involutive. Qed.

Lemma lstrip_last (c : ascii) (s : string) :
  Str.lstrip c s = "" \/ last (Str.lstrip c s) = last s.
Proof.
  induction s as [|a s IH]; simpl; [now left|].
  destruct (Ascii.eqb a c); [|now right].
  destruct s as [|b s]; [now left|].
  destruct IH as [IH|IH]; [now left|].
  right. rewrite IH. reflexivity.
Qed.

(** [rstrip] leaves no [c] at the end and keeps the first character. *)
Lemma rstrip_last (c : ascii) (s : string) : last (Str.rstrip c s) <> Some c.
Proof. unfold Str.rstrip. rewrite last_rev. apply lstrip_head. Qed.

Lemma rstrip_head (c : ascii) (s : string) :
  head s <> Some c -> head (Str.rstrip c s) <> Some c.
Proof.
  intros H. unfold Str.rstrip. rewrite head_rev.
  destruct (lstrip_last c (Str.rev s)) as [-> | ->]; [discriminate|].
  now rewrite last_rev.
Qed.

Lemma contains_app (c : ascii) (s1 s2 : string) :
  Str.contains c (s1 ++ s2)%string = Str.contains c s1 || Str.contains c s2.
Proof.
  induction s1 as [|a s1 IH]; [reflexivity|].
  rewrite append_cons. simpl. rewrite IH. now rewrite orb_assoc.
Qed.

Lemma contains_rev (c : ascii) (s : string) :
  Str.contains c (Str.rev s) = Str.contains c s.
Proof.
  induction s as [|a s IH]; [reflexivity|].
  rewrite rev_cons, contains_app, IH. simpl.
  rewrite orb_false_r. apply orb_comm.
Qed.

(** [split(c, 1)] cuts at the first [c]. *)
Lemma split1_spec (c : ascii) (s : string) :
  if Str.contains c s then
    exists p d, Str.split1 c s = [p; d]
                /\ s = (p ++ String c d)%string
                /\ Str.contains c p = false
  else Str.split1 c s = [s].
Proof.
  induction s as [|a s IH]; simpl; [reflexivity|].
  destruct (Ascii.eqb a c) eqn:E; simpl.
  - apply Ascii.eqb_eq in E. subst a.
    exists EmptyString, s. repeat split.
  - destruct (Str.contains c s).
    + destruct IH as (p & d & -> & -> & Hp).
      exists (String a p), d. repeat split. simpl. now rewrite E, Hp.
    + rewrite IH. reflexivity.
Qed.

(** [rsplit(c, 1)] cuts at the last [c]. *)
Lemma rsplit1_spec (c : ascii) (s : string) :
  if Str.contains c s then
    exists b a, Str.rsplit1 c s = [b; a]
                /\ s = (b ++ String c a)%string
                /\ Str.contains c a = false
  else Str.rsplit1 c s = [s].
Proof.
  unfold Str.rsplit1.
  pose proof (split1_spec c (Str.rev s)) as H.
  rewrite contains_rev in H.
  destruct (Str.contains c s).
  - destruct H as (p & d & -> & Hs & Hp).
    exists (Str.rev d), (Str.rev p). repeat split.
    + apply (f_equal Str.rev) in Hs. rewrite rev_involutive in Hs.
      rewrite Hs, rev_app, rev_cons, append_assoc. reflexivity.
    + now rewrite contains_rev.
  - rewrite H. reflexivity.
Qed.

(** ** [execute] as a check followed by a sequence of hook calls *)

(** The hook calls [es], one after the other, up to the first that raises. *)
Definition run_script (w : World) (es : list event) : M unit :=
  for_each es (hook w).

(** The calls of [_copy_single_object] when none of them raises. *)
Definition copy_events (self : SFTPToGCSOperator) (src dst : string)
  : list event :=
  ((if use_stream self then
      [get_bucket (destination_bucket self);
       blob_open (destination_bucket self) dst;
       retrieve_file src true (sftp_prefetch self)]
    else
      [retrieve_file src false (sftp_prefetch self);
       upload (destination_bucket self) dst (mime_type self) (gzip self)])
   ++ (if move_object self then [delete_file src] else []))%list.

(** The object a listed file is copied to. *)
Definition object_name (destination base_path file : string) : string :=
  let destination_path := Str.replace1 base_path destination file in
  if negb (truthy (Some destination)) then Str.lstrip "/" destination_path
  else destination_path.

(** What [execute] decides before it calls any hook: the exception it
    raises, or the hook calls it is going to make. *)
Definition plan (w : World) (op : SFTPToGCSOperator) : exn + list event :=
  let self := normalised op in
  let destination := _set_destination_path (destination_path op) in
  if Str.contains WILDCARD (source_path op) then
    if (1 <? Str.count WILDCARD (source_path op))%nat then
      inl (AirflowException
             (wildcard_message (Str.count WILDCARD (source_path op))
                               (source_path op)))
    else
      match Str.split1 WILDCARD (source_path op) with
      | [prefix; delimiter] =>
          let base_path := Str.dirname prefix in
          inr (get_tree_map base_path prefix delimiter
               :: flat_map (fun file =>
                              copy_events self file
                                (object_name destination base_path file))
                           (files_found w [] base_path prefix delimiter))
      | _ => inl ValueError
      end
  else
    if truthy (Some destination) then
      inr (copy_events self (source_path op) destination)
    else
      match Str.rsplit1 "/" (source_path op) with
      | _ :: last :: _ => inr (copy_events self (source_path op) last)
      | _ => inl IndexError
      end.

(** All the calls [es] made after [calls] returned. *)
Definition all_returned (w : World) (calls es : list event) : Prop :=
  forall p e q, es = (p ++ e :: q)%list -> raises w (calls ++ p)%list e = None.

Lemma all_returned_nil (w : World) (calls : list event) :
  all_returned w calls [].
Proof. intros p e q H. destruct p; discriminate. Qed.

Lemma all_returned_cons (w : World) (calls : list event) (a : event)
      (es : list event) :
  raises w calls a = None ->
  all_returned w (calls ++ [a])%list es ->
  all_returned w calls (a :: es).
Proof.
  intros Ha Hes p e q H. destruct p as [|b p]; simpl in H.
  - inversion H; subst. now rewrite List.app_nil_r.
  - inversion H; subst.
    specialize (Hes p e q eq_refl).
    now rewrite <- List.app_assoc in Hes.
Qed.

(** What running a sequence of hook calls leaves behind. *)
Lemma run_script_spec (w : World) (es : list event) :
  forall (st st' : state) (r : exn + unit),
    run_script w es st = (r, st') ->
    self st' = self st
    /\ exists done,
        trace st' = (trace st ++ done)%list
        /\ match r with
           | inr _ => done = es /\ all_returned w (trace st) es
           | inl x =>
               exists p e q,
                 es = (p ++ e :: q)%list /\ done = (p ++ [e])%list
                 /\ all_returned w (trace st) p
                 /\ raises w (trace st ++ p)%list e = Some x
           end.
Proof.
  unfold run_script.
  induction es as [|a es IH]; intros st st' r; simpl.
  - unfold ret. intros [= <- <-]. split; [reflexivity|].
    exists []. split; [now rewrite List.app_nil_r|].
    split; [reflexivity | apply all_returned_nil].
  - unfold bind, hook.
    destruct (raises w (trace st) a) as [x|] eqn:Ha.
    + intros [= <- <-]. simpl. split; [reflexivity|].
      exists [a]. split; [reflexivity|].
      exists [], a, es. repeat split.
      * apply all_returned_nil.
      * now rewrite List.app_nil_r.
    + intros Hrest. apply IH in Hrest as (Hself & done & Htr & Hr).
      simpl in *. split; [exact Hself|].
      exists (a :: done). split; [now rewrite Htr, <- List.app_assoc|].
      destruct r as [x|u].
      * destruct Hr as (p & e & q & -> & -> & Hp & He).
        exists (a :: p), e, q. repeat split.
        -- now apply all_returned_cons.
        -- now rewrite <- List.app_assoc in He.
      * destruct Hr as [-> Hall]. split; [reflexivity|].
        now apply all_returned_cons.
Qed.

Lemma run_script_app (w : World) (es1 es2 : list event) (st : state) :
  run_script w (es1 ++ es2)%list st
  = bind (run_script w es1) (fun _ => run_script w es2) st.
Proof.
  unfold run_script. revert st.
  induction es1 as [|a es1 IH]; intros st; simpl; [reflexivity|].
  unfold bind.
  destruct (hook w a st) as [[x|u] st1]; [reflexivity|].
  rewrite IH. reflexivity.
Qed.

Lemma copy_is_script (w : World) (src dst : string) (st : state) :
  _copy_single_object w src dst st
  = run_script w (copy_events (self st) src dst) st.
Proof.
  unfold _copy_single_object, copy_events, run_script.
  rewrite bind_get_self.
  destruct (use_stream (self st)), (move_object (self st)); simpl;
    unfold bind, hook, ret; simpl;
    repeat match goal with
           | |- context [raises w ?t ?e] => destruct (raises w t e)
           end; reflexivity.
Qed.

Lemma for_each_copy_script
      (w : World) (name : string -> string) (files : list string) :
  forall st : state,
    for_each files (fun file => _copy_single_object w file (name file)) st
    = run_script w (flat_map (fun file => copy_events (self st) file (name file))
                             files) st.
Proof.
  induction files as [|f files IH]; intros st; simpl; [reflexivity|].
  rewrite run_script_app. unfold bind.
  rewrite copy_is_script.
  destruct (run_script w (copy_events (self st) f (name f)) st)
    as [[x|u] st1] eqn:E; [reflexivity|].
  apply run_script_spec in E as [Hself _].
  rewrite IH, Hself. reflexivity.
Qed.

(** The state in which the hooks are first called. *)
Definition started (op : SFTPToGCSOperator) : state :=
  {| self := normalised op; trace := [] |}.

(** [execute] raises what the plan raises, before any call, or makes the
    calls of the plan. *)
Lemma execute_follows_plan (w : World) (op : SFTPToGCSOperator) :
  run w op = match plan w op with
             | inl e => (inl e, started op)
             | inr es => run_script w es (started op)
             end.
Proof.
  unfold run, execute, plan.
  rewrite bind_get_self, bind_set_self, bind_get_self. simpl.
  fold (normalised op). fold (started op).
  destruct (Str.contains WILDCARD (source_path op)).
  - destruct (1 <? Str.count WILDCARD (source_path op))%nat; [reflexivity|].
    destruct (Str.split1 WILDCARD (source_path op)) as [|p [|d [|? ?]]];
      try reflexivity.
    unfold bind, sftp_get_tree_map. simpl.
    change (run_script w (?a :: ?es) ?st)
      with (bind (hook w a) (fun _ => run_script w es) st).
    unfold bind.
    destruct (hook w (get_tree_map (Str.dirname p) p d) (started op))
      as [[x|u] st1] eqn:E; [reflexivity|].
    assert (self st1 = normalised op) as Hself.
    { unfold hook in E. simpl in E.
      destruct (raises w [] _); inversion E; reflexivity. }
    rewrite <- Hself.
    apply (for_each_copy_script w
             (object_name (_set_destination_path (destination_path op))
                          (Str.dirname p))).
  - destruct (_set_destination_path (destination_path op)) as [|c s] eqn:Hd;
      simpl.
    + destruct (Str.rsplit1 "/" (source_path op)) as [|b [|a l]];
        try reflexivity.
      unfold bind, ret. apply (copy_is_script w _ _ (started op)).
    + unfold bind, ret. apply (copy_is_script w _ _ (started op)).
Qed.

(** What a run leaves behind, read off the plan. *)
Lemma run_trace_in_plan
      (w : World) (op : SFTPToGCSOperator) (r : exn + unit) (st : state) :
  run w op = (r, st) ->
  self st = normalised op
  /\ match plan w op with
     | inl e => r = inl e /\ trace st = []
     | inr es =>
         match r with
         | inr _ => trace st = es /\ all_returned w [] es
         | inl x =>
             exists p e q,
               es = (p ++ e :: q)%list /\ trace st = (p ++ [e])%list
               /\ all_returned w [] p /\ raises w p e = Some x
         end
     end.
Proof.
  rewrite execute_follows_plan.
  destruct (plan w op) as [e|es].
  - intros [= <- <-]. repeat split.
  - intros H. apply run_script_spec in H as (Hself & done & Htr & Hr).
    simpl in *. split; [exact Hself|]. subst done.
    destruct r as [x|u]; exact Hr.
Qed.

(** Every call made is a call of the plan. *)
Lemma trace_events_planned
      (w : World) (op : SFTPToGCSOperator) (P : event -> Prop)
      (r : exn + unit) (st : state) :
  (forall es, plan w op = inr es -> Forall P es) ->
  run w op = (r, st) ->
  Forall P (trace st).
Proof.
  intros HP Hrun. apply run_trace_in_plan in Hrun as [_ Hrun].
  destruct (plan w op) as [e|es].
  - destruct Hrun as [_ ->]. constructor.
  - specialize (HP es eq_refl). destruct r as [x|u].
    + destruct Hrun as (p & e & q & -> & -> & _).
      apply List.Forall_app in HP as [Hp Heq].
      apply List.Forall_app. split; [exact Hp|].
      inversion Heq; subst. constructor; [assumption | constructor].
    + destruct Hrun as [-> _]. exact HP.
Qed.

(** The calls of a plan, whatever branch it comes from, are the calls of
    copies, after one listing at most. *)
Lemma plan_events (w : World) (op : SFTPToGCSOperator) (P : event -> Prop)
      (es : list event) :
  (forall b p d, P (get_tree_map b p d)) ->
  (forall src dst,
      (Str.contains WILDCARD (source_path op) = false ->
       head dst <> Some "/"%char) ->
      (_set_destination_path (destination_path op) = "" ->
       head dst <> Some "/"%char) ->
      Forall P (copy_events (normalised op) src dst)) ->
  plan w op = inr es -> Forall P es.
Proof.
  intros Hlist Hcopy. unfold plan.
  pose proof (lstrip_head "/" ) as Hstrip.
  destruct (Str.contains WILDCARD (source_path op)) eqn:Hw.
  - destruct (1 <? Str.count WILDCARD (source_path op))%nat; [discriminate|].
    destruct (Str.split1 WILDCARD (source_path op)) as [|p [|d [|? ?]]];
      try discriminate.
    intros [= <-]. constructor; [apply Hlist|].
    induction (files_found w [] (Str.dirname p) p d) as [|f fs IH];
      simpl; [constructor|].
    apply List.Forall_app. split; [|exact IH].
    apply Hcopy; [discriminate|].
    intros Hd. unfold object_name. rewrite Hd. simpl. apply Hstrip.
  - destruct (_set_destination_path (destination_path op)) as [|c s] eqn:Hd;
      simpl.
    + pose proof (rsplit1_spec "/" (source_path op)) as Hr.
      destruct (Str.contains "/" (source_path op)).
      * destruct Hr as (b & a & -> & _ & Ha). intros [= <-].
        apply Hcopy; intros _; destruct a as [|c a]; simpl; try discriminate;
          intros [= ->]; simpl in Ha; discriminate.
      * rewrite Hr. discriminate.
    + intros [= <-]. apply Hcopy; [|discriminate].
      intros _. rewrite <- Hd.
      unfold _set_destination_path.
      destruct (destination_path op) as [path|]; [|discriminate].
      destruct (Str.startswith "/" path) eqn:Hs; [apply Hstrip|].
      intros Hh. apply startswith_head in Hh. congruence.
Qed.

(** X: [_set_destination_path] yields a path without a leading slash; a
    path that has none is returned as it is, [None] gives the empty string,
    and normalising twice is normalising once. *)
Theorem set_destination_path_relative (path : option string) :
  head (_set_destination_path path) <> Some "/"%char
  /\ _set_destination_path (Some (_set_destination_path path))
     = _set_destination_path path
  /\ (forall p, path = Some p -> head p <> Some "/"%char ->
                _set_destination_path path = p)
  /\ (path = None -> _set_destination_path path = "").
Proof.
  assert (forall p, head p <> Some "/"%char ->
                    _set_destination_path (Some p) = p) as Hid.
  { intros p Hp. unfold _set_destination_path.
    destruct (Str.startswith "/" p) eqn:Hs; [|reflexivity].
    apply startswith_head in Hs. contradiction. }
  assert (head (_set_destination_path path) <> Some "/"%char) as Hrel.
  { unfold _set_destination_path. destruct path as [p|]; [|discriminate].
    destruct (Str.startswith "/" p) eqn:Hs; [apply lstrip_head|].
    intros Hh. apply startswith_head in Hh. congruence. }
  split; [exact Hrel|]. split; [now apply Hid|]. split.
  - intros p -> Hp. now apply Hid.
  - intros ->. reflexivity.
Qed.

Lemma set_bucket_name_ends (name : string) :
  head (_set_bucket_name name) <> Some "/"%char
  /\ last (_set_bucket_name name) <> Some "/"%char.
Proof.
  unfold _set_bucket_name, Str.strip. split.
  - apply rstrip_head, lstrip_head.
  - apply rstrip_last.
Qed.

(** X: the bucket name [_set_bucket_name] yields neither starts nor ends
    with a slash, and a [gs://] scheme in front of a name that has none of
    its own changes nothing. *)
Theorem set_bucket_name_bare (name : string) :
  head (_set_bucket_name name) <> Some "/"%char
  /\ last (_set_bucket_name name) <> Some "/"%char
  /\ (Str.startswith "gs://" name = false ->
      _set_bucket_name ("gs://" ++ name) = _set_bucket_name name).
Proof.
  destruct (set_bucket_name_ends name) as [Hh Hl].
  split; [exact Hh|]. split; [exact Hl|].
  unfold _set_bucket_name, Str.strip.
  intros Hn.
    assert (Str.startswith "gs://" ("gs://" ++ name) = true) as Hp
        by (unfold Str.startswith; destruct name; reflexivity).
    rewrite Hn, Hp.
    change (Str.drop 5 ("gs://" ++ name)) with name. reflexivity.
Qed.

(** X: without a wildcard and without a destination path (none given, the
    empty string, or slashes only), the object is named after the last
    component of [source_path]; a [source_path] without any slash makes
    [execute] raise [IndexError] before it calls a hook. *)
Theorem execute_names_object_after_file (w : World) (op : SFTPToGCSOperator) :
  Str.contains WILDCARD (source_path op) = false ->
  _set_destination_path (destination_path op) = "" ->
  if Str.contains "/" (source_path op) then
    exists directory file,
      source_path op = (directory ++ "/" ++ file)%string
      /\ Str.contains "/" file = false
      /\ run w op = _copy_single_object w (source_path op) file (started op)
  else run w op = (inl IndexError, started op).
Proof.
  intros Hw Hd. rewrite execute_follows_plan. unfold plan.
  rewrite Hw, Hd. simpl.
  pose proof (rsplit1_spec "/" (source_path op)) as Hr.
  destruct (Str.contains "/" (source_path op)).
  - destruct Hr as (b & a & Hsplit & Hsp & Ha).
    exists b, a. rewrite Hsplit. repeat split; try assumption.
    symmetry. apply (copy_is_script w _ _ (started op)).
  - rewrite Hr. reflexivity.
Qed.

(** X: with exactly one wildcard the first call is the listing, asked for
    what stands before and after the wildcard, in the directory of what
    stands before; the two parts and the wildcard make up [source_path]. *)
Theorem execute_lists_around_wildcard (w : World) (op : SFTPToGCSOperator) :
  Str.count WILDCARD (source_path op) = 1 ->
  exists prefix delimiter,
    source_path op = (prefix ++ String WILDCARD delimiter)%string
    /\ Str.contains WILDCARD prefix = false
    /\ Str.contains WILDCARD delimiter = false
    /\ forall r st, run w op = (r, st) ->
                    exists rest,
                      trace st = get_tree_map (Str.dirname prefix) prefix
                                              delimiter :: rest.
Proof.
  intros Hc.
  pose proof (split1_spec WILDCARD (source_path op)) as Hs.
  assert (Str.contains WILDCARD (source_path op) = true) as Hcont
      by (rewrite contains_count, Hc; reflexivity).
  rewrite Hcont in Hs. destruct Hs as (p & d & Hsplit & Hsp & Hp).
  exists p, d. split; [exact Hsp|]. split; [exact Hp|]. split.
  - assert (forall s, Str.count WILDCARD s = 0 ->
                      Str.contains WILDCARD s = false) as H0
        by (intros s Hs0; rewrite contains_count, Hs0; reflexivity).
    apply H0.
    assert (forall s1 s2, Str.count WILDCARD (s1 ++ s2)%string
                          = Str.count WILDCARD s1 + Str.count WILDCARD s2)
      as Happ.
    { intros s1 s2. induction s1 as [|a s1 IH]; [reflexivity|].
      rewrite append_cons. simpl. rewrite IH. lia. }
    assert (Str.count WILDCARD p = 0) as Hp0.
    { rewrite contains_count in Hp. apply Nat.ltb_ge in Hp. lia. }
    rewrite Hsp, Happ, Hp0 in Hc. simpl in Hc. lia.
  - intros r st Hrun. apply run_trace_in_plan in Hrun as [_ Hrun].
    unfold plan in Hrun. rewrite Hcont, Hc, Hsplit in Hrun. simpl in Hrun.
    destruct r as [x|u].
    + destruct Hrun as (pre & e & q & Hes & -> & _).
      destruct pre as [|a pre]; simpl in Hes; inversion Hes; subst;
        eexists; reflexivity.
    + destruct Hrun as [-> _]. eexists; reflexivity.
Qed.

(** X: when no hook raises and [source_path] has exactly one wildcard,
    [execute] returns after one listing and the copy of every file the
    listing found, each once and in the order of the listing. *)
Theorem execute_copies_every_listed_file (w : World) (op : SFTPToGCSOperator) :
  (forall calls e, raises w calls e = None) ->
  Str.count WILDCARD (source_path op) = 1 ->
  exists prefix delimiter,
    Str.split1 WILDCARD (source_path op) = [prefix; delimiter]
    /\ run w op
       = (inr tt,
          {| self := normalised op;
             trace :=
               get_tree_map (Str.dirname prefix) prefix delimiter
               :: flat_map
                    (fun file =>
                       copy_events (normalised op) file
                         (object_name
                            (_set_destination_path (destination_path op))
                            (Str.dirname prefix) file))
                    (files_found w [] (Str.dirname prefix) prefix delimiter)
          |}).
Proof.
  intros Hquiet Hc.
  assert (Str.contains WILDCARD (source_path op) = true) as Hcont
      by (rewrite contains_count, Hc; reflexivity).
  destruct (split1_contains _ _ Hcont) as (p & d & Hsplit).
  exists p, d. split; [exact Hsplit|].
  destruct (run w op) as [r st] eqn:Hrun.
  apply run_trace_in_plan in Hrun as [Hself Hrun].
  unfold plan in Hrun. rewrite Hcont, Hc, Hsplit in Hrun. simpl in Hrun.
  destruct r as [x|[]].
  - destruct Hrun as (pre & e & q & _ & _ & _ & Hraise).
    rewrite Hquiet in Hraise. discriminate.
  - destruct Hrun as [Htr _]. destruct st as [s t]. simpl in *.
    now subst.
Qed.

(** X: with [move_object] off, [execute] never deletes a file on the SFTP
    server, whatever the hooks do. *)
Theorem execute_copy_never_deletes
    (w : World) (op : SFTPToGCSOperator) (r : exn + unit) (st : state)
    (remote : string) :
  move_object op = false ->
  run w op = (r, st) ->
  ~ In (delete_file remote) (trace st).
Proof.
  intros Hmove Hrun Hin.
  pose (P := fun e => match e with delete_file _ => False | _ => True end).
  assert (Forall P (trace st)) as Hall.
  { apply (trace_events_planned w op P r st); [|exact Hrun].
    intros es. apply plan_events.
    - intros; exact I.
    - intros src dst _ _. unfold copy_events. simpl. rewrite Hmove.
      destruct (use_stream op); repeat constructor. }
  rewrite List.Forall_forall in Hall. exact (Hall _ Hin).
Qed.

(** The calls that transfer one file, before its deletion. *)
Definition transfer_events (self : SFTPToGCSOperator) (src dst : string)
  : list event :=
  if use_stream self then
    [get_bucket (destination_bucket self);
     blob_open (destination_bucket self) dst;
     retrieve_file src true (sftp_prefetch self)]
  else
    [retrieve_file src false (sftp_prefetch self);
     upload (destination_bucket self) dst (mime_type self) (gzip self)].

(** In [es], every deletion of a file comes right after the calls that
    transfer this file. *)
Definition deletions_guarded (self : SFTPToGCSOperator) (es : list event)
  : Prop :=
  forall a remote b,
    es = (a ++ delete_file remote :: b)%list ->
    exists a0 dst, a = (a0 ++ transfer_events self remote dst)%list.

Lemma transfer_events_no_delete (self : SFTPToGCSOperator) (src dst remote : string) :
  ~ In (delete_file remote) (transfer_events self src dst).
Proof.
  unfold transfer_events. destruct (use_stream self); simpl;
    intros H; repeat (destruct H as [H|H]; [discriminate|]); exact H.
Qed.

Lemma copy_events_guarded (self : SFTPToGCSOperator) (src dst : string) :
  deletions_guarded self (copy_events self src dst).
Proof.
  intros a remote b H.
  change (copy_events self src dst)
    with (transfer_events self src dst
          ++ (if move_object self then [delete_file src] else []))%list in H.
  apply List.app_eq_app in H as [l [[H1 H2] | [H1 H2]]].
  - (* the transfer calls are [a ++ l] *)
    destruct l as [|e l]; simpl in H2.
    + rewrite List.app_nil_r in H1. subst a.
      destruct (move_object self); [|discriminate].
      inversion H2; subst. exists [], dst. reflexivity.
    + exfalso. apply (transfer_events_no_delete self src dst remote).
      rewrite H1. inversion H2; subst. apply List.in_or_app. right. now left.
  - (* [a] is the transfer calls and [l] *)
    destruct (move_object self); [|destruct l; discriminate].
    destruct l as [|e l]; simpl in H2.
    + inversion H2; subst. exists [], dst. now rewrite List.app_nil_r.
    + inversion H2 as [[He Hl]]. destruct l; discriminate.
Qed.

Lemma guarded_app (self : SFTPToGCSOperator) (es1 es2 : list event) :
  deletions_guarded self es1 -> deletions_guarded self es2 ->
  deletions_guarded self (es1 ++ es2)%list.
Proof.
  intros H1 H2 a remote b H.
  apply List.app_eq_app in H as [l [[Ha Hb] | [Ha Hb]]].
  - (* [es1 = a ++ l] *)
    destruct l as [|e l]; simpl in Hb.
    + rewrite List.app_nil_r in Ha. subst a.
      destruct (H2 [] remote b (eq_sym Hb)) as (a0 & dst & Ha0).
      exists (es1 ++ a0)%list, dst.
      now rewrite <- List.app_assoc, <- Ha0, List.app_nil_r.
    + inversion Hb; subst. apply (H1 a remote l). reflexivity.
  - (* [a = es1 ++ l] *)
    destruct (H2 l remote b Hb) as (a0 & dst & ->).
    exists (es1 ++ a0)%list, dst. now rewrite Ha, <- List.app_assoc.
Qed.

Lemma plan_guarded (w : World) (op : SFTPToGCSOperator) (es : list event) :
  plan w op = inr es -> deletions_guarded (normalised op) es.
Proof.
  unfold plan.
  destruct (Str.contains WILDCARD (source_path op)).
  - destruct (1 <? Str.count WILDCARD (source_path op))%nat; [discriminate|].
    destruct (Str.split1 WILDCARD (source_path op)) as [|p [|d [|? ?]]];
      try discriminate.
    intros [= <-].
    apply (guarded_app _ [get_tree_map (Str.dirname p) p d]).
    + intros a remote b H. destruct a as [|e [|e' a]]; discriminate.
    + induction (files_found w [] (Str.dirname p) p d) as [|f fs IH]; simpl.
      * intros a remote b H. destruct a; discriminate.
      * apply guarded_app; [apply copy_events_guarded | exact IH].
  - destruct (truthy _).
    + intros [= <-]. apply copy_events_guarded.
    + destruct (Str.rsplit1 "/" (source_path op)) as [|b [|a l]];
        try discriminate.
      intros [= <-]. apply copy_events_guarded.
Qed.

(** X: [execute] deletes a file on the SFTP server only right after the
    calls that transfer this very file, and only when all of them returned:
    a transfer that raised is never followed by the deletion. *)
Theorem execute_deletes_after_transfer
    (w : World) (op : SFTPToGCSOperator) (r : exn + unit) (st : state)
    (calls after : list event) (remote : string) :
  run w op = (r, st) ->
  trace st = (calls ++ delete_file remote :: after)%list ->
  exists before dst,
    calls = (before ++ transfer_events (normalised op) remote dst)%list
    /\ all_returned w before (transfer_events (normalised op) remote dst).
Proof.
  intros Hrun Htrace. apply run_trace_in_plan in Hrun as [_ Hrun].
  destruct (plan w op) as [e|es] eqn:Hplan.
  - destruct Hrun as [_ Hnil]. rewrite Hnil in Htrace.
    destruct calls; discriminate.
  - apply plan_guarded in Hplan.
    assert (exists rest, es = (calls ++ delete_file remote :: rest)%list
                         /\ all_returned w [] calls) as (rest & Hes & Hret).
    { destruct r as [x|u].
      - destruct Hrun as (p & e & q & Hes & Htr & Hp & _).
        rewrite Htr in Htrace.
        destruct (List.app_eq_app _ _ _ _ Htrace) as [l [[H1 H2] | [H1 H2]]].
        + (* [p = calls ++ l] *)
          destruct l as [|e' l]; simpl in H2.
          * inversion H2; subst. rewrite List.app_nil_r in *.
            exists q. split; [reflexivity | exact Hp].
          * inversion H2; subst.
            exists (l ++ e :: q)%list. split.
            -- rewrite <- List.app_assoc. reflexivity.
            -- intros p1 e1 q1 Hc.
               apply (Hp p1 e1 (q1 ++ delete_file remote :: l)%list).
               rewrite Hc, <- List.app_assoc. reflexivity.
        + (* [calls = p ++ l] *)
          destruct l as [|e' l]; simpl in H2.
          * inversion H2; subst. rewrite List.app_nil_r in *.
            exists q. split; [reflexivity | exact Hp].
          * inversion H2 as [[He Hl]]. destruct l; discriminate.
      - destruct Hrun as [Htr Hall]. exists after. split; [congruence|].
        intros p1 e1 q1 Hc.
        apply (Hall p1 e1 (q1 ++ delete_file remote :: after)%list).
        rewrite <- Htr, Htrace, Hc, <- List.app_assoc. reflexivity. }
    destruct (Hplan calls remote rest Hes) as (before & dst & Hcalls).
    exists before, dst. split; [exact Hcalls|].
    intros p1 e1 q1 Ht.
    apply (Hret (before ++ p1)%list e1 q1).
    rewrite Hcalls, Ht, <- List.app_assoc. reflexivity.
Qed.

(** X: [use_stream] decides how a file travels, for every file alike: when
    it is on, nothing is uploaded from a local file and every retrieval
    goes to a stream; when it is off, no bucket or blob is opened and every
    retrieval goes to a local file. *)
Theorem execute_transfer_method
    (w : World) (op : SFTPToGCSOperator) (r : exn + unit) (st : state) :
  run w op = (r, st) ->
  Forall (fun e =>
            match e with
            | upload _ _ _ _ => use_stream op = false
            | get_bucket _ | blob_open _ _ => use_stream op = true
            | retrieve_file _ to_stream _ => to_stream = use_stream op
            | get_tree_map _ _ _ | delete_file _ => True
            end) (trace st).
Proof.
  apply trace_events_planned. intros es. apply plan_events.
  - intros; exact I.
  - intros src dst _ _. unfold copy_events. simpl.
    destruct (use_stream op), (move_object op); repeat constructor.
Qed.

(** X: an object is never named with a leading slash when there is no
    destination path or no wildcard: every object [execute] opens or
    uploads to then has a name that does not start with a slash, and the
    bucket it goes to is the normalised one. *)
Theorem execute_object_names_relative
    (w : World) (op : SFTPToGCSOperator) (r : exn + unit) (st : state) :
  _set_destination_path (destination_path op) = ""
  \/ Str.contains WILDCARD (source_path op) = false ->
  run w op = (r, st) ->
  Forall (fun e =>
            match e with
            | upload bucket object_name _ _ | blob_open bucket object_name =>
                head object_name <> Some "/"%char
                /\ bucket = _set_bucket_name (destination_bucket op)
            | _ => True
            end) (trace st).
Proof.
  intros Hcase. apply trace_events_planned. intros es. apply plan_events.
  - intros; exact I.
  - intros src dst Hnw Hnd.
    assert (head dst <> Some "/"%char) as Hdst
        by (destruct Hcase as [H|H]; [now apply Hnd | now apply Hnw]).
    unfold copy_events. simpl.
    destruct (use_stream op), (move_object op); repeat constructor;
      assumption.
Qed.

(** ** The added properties on concrete runs *)

(** A move of one file, without a destination path. *)
Definition move_one : SFTPToGCSOperator :=
  {| source_path := "/tmp/x.csv";
     destination_path := Some "/";
     destination_bucket := "gs://bucket/";
     gcp_conn_id := "google_cloud_default";
     mime_type := "text/csv";
     gzip := false;
     sftp_conn_id := "ssh_default";
     move_object := true;
     impersonation_chain := None;
     sftp_prefetch := true;
     use_stream := false |}.

Definition move_one_done : state :=
  {| self := normalised move_one;
     trace := [retrieve_file "/tmp/x.csv" false true;
               upload "bucket" "x.csv" "text/csv" false;
               delete_file "/tmp/x.csv"] |}.

Example run_move_one : run quiet_world move_one = (inr tt, move_one_done).
Proof. reflexivity. Qed.

Lemma set_destination_path_relative_witness :
  _set_destination_path (Some "//in/x") = "in/x"
  /\ _set_destination_path (Some "in/x") = "in/x".
Proof.
  split; [reflexivity|].
  apply (proj1 (proj2 (proj2 (set_destination_path_relative (Some "in/x"))))
               "in/x" eq_refl).
  discriminate.
Defined.

Lemma set_bucket_name_bare_witness :
  _set_bucket_name ("gs://" ++ "bucket/") = _set_bucket_name "bucket/".
Proof.
  apply (proj2 (proj2 (set_bucket_name_bare "bucket/"))). reflexivity.
Defined.

Lemma execute_names_object_after_file_witness :
  (exists directory file,
      source_path move_one = (directory ++ "/" ++ file)%string
      /\ Str.contains "/" file = false
      /\ run quiet_world move_one
         = _copy_single_object quiet_world (source_path move_one) file
                               (started move_one))
  /\ run quiet_world (transfer "x.csv" None)
     = (inl IndexError, started (transfer "x.csv" None)).
Proof.
  split.
  - exact (execute_names_object_after_file quiet_world move_one
             eq_refl eq_refl).
  - exact (execute_names_object_after_file quiet_world (transfer "x.csv" None)
             eq_refl eq_refl).
Defined.

Lemma execute_lists_around_wildcard_witness :
  exists prefix delimiter,
    source_path (transfer "/tmp/*.csv" None)
    = (prefix ++ String WILDCARD delimiter)%string
    /\ Str.contains WILDCARD prefix = false
    /\ Str.contains WILDCARD delimiter = false
    /\ forall r st, run quiet_world (transfer "/tmp/*.csv" None) = (r, st) ->
                    exists rest,
                      trace st = get_tree_map (Str.dirname prefix) prefix
                                              delimiter :: rest.
Proof.
  exact (execute_lists_around_wildcard quiet_world
           (transfer "/tmp/*.csv" None) eq_refl).
Defined.

Lemma execute_copies_every_listed_file_witness :
  exists prefix delimiter,
    Str.split1 WILDCARD "/tmp/*.csv" = [prefix; delimiter]
    /\ run quiet_world (transfer "/tmp/*.csv" None)
       = (inr tt,
          {| self := normalised (transfer "/tmp/*.csv" None);
             trace :=
               get_tree_map (Str.dirname prefix) prefix delimiter
               :: flat_map
                    (fun file =>
                       copy_events (normalised (transfer "/tmp/*.csv" None))
                         file (object_name "" (Str.dirname prefix) file))
                    (files_found quiet_world [] (Str.dirname prefix) prefix
                                 delimiter) |}).
Proof.
  exact (execute_copies_every_listed_file quiet_world
           (transfer "/tmp/*.csv" None) (fun _ _ => eq_refl) eq_refl).
Defined.

Lemma execute_copy_never_deletes_witness :
  ~ In (delete_file "/tmp/a.csv")
       [get_tree_map "/tmp" "/tmp/" ".csv";
        retrieve_file "/tmp/a.csv" false true;
        upload "bucket" "a.csv" "application/octet-stream" false;
        retrieve_file "/tmp/sub/b.csv" false true;
        upload "bucket" "sub/b.csv" "application/octet-stream" false].
Proof.
  exact (execute_copy_never_deletes quiet_world (transfer "/tmp/*.csv" None)
           _ _ "/tmp/a.csv" eq_refl run_one_wildcard).
Defined.

Lemma execute_deletes_after_transfer_witness :
  exists before dst,
    [retrieve_file "/tmp/x.csv" false true;
     upload "bucket" "x.csv" "text/csv" false]
    = (before ++ transfer_events (normalised move_one) "/tmp/x.csv" dst)%list
    /\ all_returned quiet_world before
         (transfer_events (normalised move_one) "/tmp/x.csv" dst).
Proof.
  exact (execute_deletes_after_transfer quiet_world move_one _ _
           [retrieve_file "/tmp/x.csv" false true;
            upload "bucket" "x.csv" "text/csv" false] []
           "/tmp/x.csv" run_move_one eq_refl).
Defined.

Lemma execute_transfer_method_witness :
  Forall (fun e =>
            match e with
            | upload _ _ _ _ => use_stream move_one = false
            | get_bucket _ | blob_open _ _ => use_stream move_one = true
            | retrieve_file _ to_stream _ => to_stream = use_stream move_one
            | get_tree_map _ _ _ | delete_file _ => True
            end) (trace move_one_done).
Proof.
  exact (execute_transfer_method quiet_world move_one _ _ run_move_one).
Defined.

Lemma execute_object_names_relative_witness :
  Forall (fun e =>
            match e with
            | upload bucket object_name _ _ | blob_open bucket object_name =>
                head object_name <> Some "/"%char
                /\ bucket = _set_bucket_name (destination_bucket move_one)
            | _ => True
            end) (trace move_one_done).
Proof.
  exact (execute_object_names_relative quiet_world move_one _ _
           (or_introl eq_refl) run_move_one).
Defined.

(** A server where every upload fails: the file is retrieved, the upload is
    tried, and nothing is deleted. *)
Definition failing_uploads : World :=
  {| raises := fun _ e => match e with
                          | upload _ _ _ _ => Some (HookError "upload")
                          | _ => None
                          end;
     files_found := fun _ _ _ _ => [] |}.

Example run_move_failing_upload :
  run failing_uploads move_one
  = (inl (HookError "upload"),
     {| self := normalised move_one;
        trace := [retrieve_file "/tmp/x.csv" false true;
                  upload "bucket" "x.csv" "text/csv" false] |}).
Proof. reflexivity. Qed.

(** ** [get_openlineage_facets_on_start] *)

(** [Dataset(namespace=..., name=...)] *)
Record Dataset : Type := {
  namespace : string;
  name : string
}.

(** [OperatorLineage(inputs=[...], outputs=[...])] *)
Record OperatorLineage : Type := {
  inputs : list Dataset;
  outputs : list Dataset
}.

(** What an f-string makes of [str | None]. *)
Definition format_optional (s : option string) : string :=
  match s with
  | Some s => s
  | None => "None"
  end.

Section Lineage.

(** [extract_ds_name_from_gcs_path] of the Google provider's OpenLineage
    utilities, and the host and the port of the SFTP hook as an f-string
    prints them. *)
Context (extract_ds_name_from_gcs_path : string -> string).
Context (remote_host port : string).

(** [def get_openlineage_facets_on_start(self)] *)
Definition get_openlineage_facets_on_start (self : SFTPToGCSOperator)
  : exn + OperatorLineage :=
  let source_name :=
    extract_ds_name_from_gcs_path
      (match Str.split1 WILDCARD (source_path self) with
       | first :: _ => first
       | [] => ""
       end) in
  let source_name :=
    if Str.startswith "/" (source_path self)
       && negb (String.eqb source_name "/")
    then "/" ++ source_name
    else source_name in
  let dest_name : exn + string :=
    if negb (Str.contains WILDCARD (source_path self))
       && negb (truthy (destination_path self))
    then match Str.rsplit1 "/" (source_path self) with
         | _ :: last :: _ => inr last
         | _ => inl IndexError
         end
    else inr (extract_ds_name_from_gcs_path
                (format_optional (destination_path self))) in
  match dest_name with
  | inl e => inl e
  | inr dest_name =>
      inr {| inputs :=
               [{| namespace := "file://" ++ remote_host ++ ":" ++ port;
                   name := source_name |}];
             outputs :=
               [{| namespace :=
                     "gs://" ++ _set_bucket_name (destination_bucket self);
                   name := dest_name |}] |}
  end.

(** X: the lineage names one input and one output; for an absolute
    [source_path] the input's name is absolute too, and the output's
    namespace is [gs://] followed by the bucket name without slashes around
    it. *)
Theorem lineage_names_absolute (self : SFTPToGCSOperator) (l : OperatorLineage) :
  get_openlineage_facets_on_start self = inr l ->
  exists input output,
    inputs l = [input] /\ outputs l = [output]
    /\ (Str.startswith "/" (source_path self) = true ->
        head (name input) = Some "/"%char)
    /\ exists bucket,
        namespace output = ("gs://" ++ bucket)%string
        /\ head bucket <> Some "/"%char /\ last bucket <> Some "/"%char.
Proof.
  unfold get_openlineage_facets_on_start.
  destruct (if negb (Str.contains WILDCARD (source_path self))
               && negb (truthy (destination_path self))
            then _ else _) as [e|d]; [discriminate|].
  intros [= <-]. simpl. eexists _, _. repeat split.
  - intros ->. simpl.
    destruct (String.eqb _ "/") eqn:E; simpl; [|reflexivity].
    apply String.eqb_eq in E. now rewrite E.
  - exists (_set_bucket_name (destination_bucket self)).
    destruct (set_bucket_name_ends (destination_bucket self)) as (H1 & H2).
    repeat split; assumption.
Qed.

(** X: for a single file without a destination path ([None] or the empty
    string) the lineage names the output after the last component of
    [source_path], as [execute] names the object, and it raises
    [IndexError] where [execute] does: when [source_path] has no slash. *)
Theorem lineage_output_named_after_file (self : SFTPToGCSOperator) :
  Str.contains WILDCARD (source_path self) = false ->
  truthy (destination_path self) = false ->
  if Str.contains "/" (source_path self) then
    exists directory file l output,
      source_path self = (directory ++ "/" ++ file)%string
      /\ Str.contains "/" file = false
      /\ get_openlineage_facets_on_start self = inr l
      /\ outputs l = [output] /\ name output = file
  else get_openlineage_facets_on_start self = inl IndexError.
Proof.
  intros Hw Hd. unfold get_openlineage_facets_on_start.
  rewrite Hw, Hd. simpl.
  pose proof (rsplit1_spec "/" (source_path self)) as Hr.
  destruct (Str.contains "/" (source_path self)).
  - destruct Hr as (b & a & -> & Hsp & Ha).
    eexists b, a, _, _. repeat split; try eassumption; reflexivity.
  - rewrite Hr. reflexivity.
Qed.

End Lineage.

(** The lineage of the move of one file, seen from [sftp.example.org:22]. *)
Definition sample_lineage (self : SFTPToGCSOperator) : exn + OperatorLineage :=
  get_openlineage_facets_on_start (Str.lstrip "/") "sftp.example.org" "22" self.

Example lineage_of_transfer :
  sample_lineage (transfer "/tmp/x.csv" None)
  = inr {| inputs := [{| namespace := "file://sftp.example.org:22";
                         name := "/tmp/x.csv" |}];
           outputs := [{| namespace := "gs://bucket"; name := "x.csv" |}] |}.
Proof. reflexivity. Qed.

Lemma lineage_names_absolute_witness :
  exists input output,
    [{| namespace := "file://sftp.example.org:22"; name := "/tmp/x.csv" |}]
    = [input]
    /\ [{| namespace := "gs://bucket"; name := "x.csv" |}] = [output]
    /\ (Str.startswith "/" "/tmp/x.csv" = true ->
        head (name input) = Some "/"%char)
    /\ exists bucket,
        namespace output = ("gs://" ++ bucket)%string
        /\ head bucket <> Some "/"%char /\ last bucket <> Some "/"%char.
Proof.
  exact (lineage_names_absolute (Str.lstrip "/") "sftp.example.org" "22"
           (transfer "/tmp/x.csv" None) _ lineage_of_transfer).
Defined.

Lemma lineage_output_named_after_file_witness :
  (exists directory file l output,
      "/tmp/x.csv" = (directory ++ "/" ++ file)%string
      /\ Str.contains "/" file = false
      /\ sample_lineage (transfer "/tmp/x.csv" None) = inr l
      /\ outputs l = [output] /\ name output = file)
  /\ sample_lineage (transfer "x.csv" None) = inl IndexError.
Proof.
  split.
  - exact (lineage_output_named_after_file (Str.lstrip "/")
             "sftp.example.org" "22" (transfer "/tmp/x.csv" None)
             eq_refl eq_refl).
  - exact (lineage_output_named_after_file (Str.lstrip "/")
             "sftp.example.org" "22" (transfer "x.csv" None)
             eq_refl eq_refl).
Defined.

End SftpToGcs.

(* ===================================================================== *)
(** * The pool allocator *)
(* ===================================================================== *)

Module Pools.

(** Modelled from the spec: the pool allocator is not among the sources.
    A pool has a total slot capacity and the slots currently allocated (its
    name is its key in the allocator). *)
Record Pool : Type := {
  capacity : nat;
  allocated : nat
}.

(** Modelled from the spec: a denied request, held until slots are free:
    the slots it asked for, its priority weight and when it was enqueued. *)
Record Waiter : Type := {
  slots : nat;
  priority_weight : Z;
  enqueued_at : nat
}.

(** Modelled from the spec: the allocator tracks the named pools, a
    priority-ordered wait set per pool, and a clock for enqueue times. *)
Record Allocator : Type := {
  pools : gmap string Pool;
  wait_sets : gmap string (list Waiter);
  clock : nat
}.

(** Modelled from the spec: the two answers of [try_acquire]. *)
Inductive answer : Type := granted | denied.

(** Modelled from the spec: the request fits in what is left of the pool,
    so that granting it keeps allocated <= capacity. *)
Definition fits (p : Pool) (n : nat) : bool :=
  (allocated p + n <=? capacity p)%nat.

(** Modelled from the spec: [n] more slots allocated. *)
Definition take (p : Pool) (n : nat) : Pool :=
  {| capacity := capacity p; allocated := allocated p + n |}.

(** Modelled from the spec: [n] slots released; no more than are allocated
    can come back. *)
Definition give_back (p : Pool) (n : nat) : Pool :=
  {| capacity := capacity p; allocated := allocated p - n |}.

(** Modelled from the spec: the wait set is priority-ordered, highest
    priority first, ties broken by earliest enqueue time; a newcomer goes
    behind every waiter of at least its priority. *)
Fixpoint enqueue (x : Waiter) (ws : list Waiter) : list Waiter :=
  match ws with
  | [] => [x]
  | y :: ws' =>
      if (priority_weight y <? priority_weight x)%Z then x :: ws
      else y :: enqueue x ws'
  end.

(** Modelled from the spec: the wait set of a pool, empty until a request
    on the pool is denied. *)
Definition wait_set (a : Allocator) (name : string) : list Waiter :=
  default [] (wait_sets a !! name).

(** Modelled from the spec:
    [try_acquire(pool_name, slots, priority_weight) -> granted|denied].
    The check and the allocation are one atomic step; a denied request is
    held in the pool's wait set. A request on an unknown pool is denied. *)
Definition try_acquire (name : string) (n : nat) (prio : Z) (a : Allocator)
  : answer * Allocator :=
  match pools a !! name with
  | None => (denied, a)
  | Some p =>
      if fits p n then
        (granted,
         {| pools := <[name := take p n]> (pools a);
            wait_sets := wait_sets a;
            clock := clock a |})
      else
        (denied,
         {| pools := pools a;
            wait_sets :=
              <[name := enqueue {| slots := n; priority_weight := prio;
                                   enqueued_at := clock a |}
                                (wait_set a name)]> (wait_sets a);
            clock := S (clock a) |})
  end.

(** Modelled from the spec: on release the waiters are retried in the order
    of the wait set, the highest-priority one first; a waiter that now fits
    is granted its slots and leaves the wait set, the others stay. *)
Fixpoint retry (p : Pool) (ws : list Waiter) : Pool * list Waiter :=
  match ws with
  | [] => (p, [])
  | x :: ws' =>
      if fits p (slots x) then retry (take p (slots x)) ws'
      else let (p', ws'') := retry p ws' in (p', x :: ws'')
  end.

(** Modelled from the spec: [release(pool_name, slots)], then the retries. *)
Definition release (name : string) (n : nat) (a : Allocator) : Allocator :=
  match pools a !! name with
  | None => a
  | Some p =>
      let (p', ws') := retry (give_back p n) (wait_set a name) in
      {| pools := <[name := p']> (pools a);
         wait_sets := <[name := ws']> (wait_sets a);
         clock := clock a |}
  end.

(** Modelled from the spec: pool capacity is reconfigurable at runtime, and
    may shrink below the current usage. *)
Definition set_capacity (name : string) (c : nat) (a : Allocator) : Allocator :=
  match pools a !! name with
  | None => a
  | Some p =>
      {| pools := <[name := {| capacity := c; allocated := allocated p |}]>
                    (pools a);
         wait_sets := wait_sets a;
         clock := clock a |}
  end.

(** Modelled from the spec: the allocator with the given pools, nothing
    allocated, nobody waiting. *)
Definition create (capacities : gmap string nat) : Allocator :=
  {| pools := (fun c => {| capacity := c; allocated := 0 |}) <$> capacities;
     wait_sets := ∅;
     clock := 0 |}.

(** Modelled from the spec: the states concurrent schedulers can bring the
    allocator to. Acquisition is atomic, and so is release: each
    [try_acquire] and each [release] is one step, so a concurrent execution
    is an interleaving of them, in any order and with any arguments. *)
Inductive reachable (capacities : gmap string nat) : Allocator -> Prop :=
| reach_create : reachable capacities (create capacities)
| reach_try_acquire a name n prio :
    reachable capacities a ->
    reachable capacities (snd (try_acquire name n prio a))
| reach_release a name n :
    reachable capacities a ->
    reachable capacities (release name n a).

(** Modelled from the spec: the pool-capacity invariant,
    allocated <= capacity for every pool. *)
Definition within_capacity (a : Allocator) : Prop :=
  forall (name : string) (p : Pool),
    pools a !! name = Some p -> allocated p <= capacity p.

Lemma fits_take (p : Pool) (n : nat) :
  fits p n = true -> allocated (take p n) <= capacity (take p n).
Proof. unfold fits. intros H. apply Nat.leb_le in H. simpl. lia. Qed.

Lemma give_back_within (p : Pool) (n : nat) :
  allocated p <= capacity p ->
  allocated (give_back p n) <= capacity (give_back p n).
Proof. simpl. lia. Qed.

Lemma retry_within (ws : list Waiter) :
  forall p : Pool,
    allocated p <= capacity p ->
    allocated (fst (retry p ws)) <= capacity (fst (retry p ws)).
Proof.
  induction ws as [|x ws IH]; intros p Hp; simpl; [exact Hp|].
  destruct (fits p (slots x)) eqn:Hfit.
  - apply IH. now apply fits_take.
  - specialize (IH p Hp). destruct (retry p ws) as [p' ws'']. exact IH.
Qed.

Lemma retry_capacity (ws : list Waiter) :
  forall p : Pool, capacity (fst (retry p ws)) = capacity p.
Proof.
  induction ws as [|x ws IH]; intros p; simpl; [reflexivity|].
  destruct (fits p (slots x)).
  - now rewrite IH.
  - specialize (IH p). destruct (retry p ws) as [p' ws'']. exact IH.
Qed.

Lemma within_insert (a : gmap string Pool) (name : string) (p : Pool) :
  (forall n q, a !! n = Some q -> allocated q <= capacity q) ->
  allocated p <= capacity p ->
  forall n q, <[name := p]> a !! n = Some q -> allocated q <= capacity q.
Proof.
  intros Ha Hp n q. destruct (decide (name = n)) as [->|Hne].
  - rewrite lookup_insert_eq. intros [= <-]. exact Hp.
  - rewrite lookup_insert_ne by exact Hne. apply Ha.
Qed.

Lemma create_within (capacities : gmap string nat) :
  within_capacity (create capacities).
Proof.
  intros name p. unfold create. simpl. rewrite lookup_fmap.
  destruct (capacities !! name) as [c|]; simpl; [|discriminate].
  intros [= <-]. simpl. lia.
Qed.

Lemma try_acquire_within (name : string) (n : nat) (prio : Z) (a : Allocator) :
  within_capacity a -> within_capacity (snd (try_acquire name n prio a)).
Proof.
  intros Ha. unfold try_acquire.
  destruct (pools a !! name) as [p|] eqn:Hp; [|exact Ha].
  destruct (fits p n) eqn:Hfit; simpl; [|exact Ha].
  unfold within_capacity. simpl.
  apply within_insert; [exact Ha | now apply fits_take].
Qed.

Lemma release_within (name : string) (n : nat) (a : Allocator) :
  within_capacity a -> within_capacity (release name n a).
Proof.
  intros Ha. unfold release.
  destruct (pools a !! name) as [p|] eqn:Hp; [|exact Ha].
  pose proof (retry_within (wait_set a name) (give_back p n)
                (give_back_within p n (Ha name p Hp))) as Hr.
  destruct (retry (give_back p n) (wait_set a name)) as [p' ws'].
  unfold within_capacity. simpl.
  apply within_insert; [exact Ha | exact Hr].
Qed.

(** C4. In every state that interleavings of [try_acquire] and [release]
    can reach from the freshly created allocator, every pool has at most as
    many slots allocated as its capacity. *)
Theorem allocated_le_capacity
    (capacities : gmap string nat) (a : Allocator)
    (name : string) (p : Pool) :
  reachable capacities a ->
  pools a !! name = Some p ->
  allocated p <= capacity p.
Proof.
  intros Hreach. revert name p. change (within_capacity a).
  induction Hreach as [|a name n prio _ IH|a name n _ IH].
  - apply create_within.
  - now apply try_acquire_within.
  - now apply release_within.
Qed.

(** Neither operation changes a pool's capacity. *)
Lemma try_acquire_capacity (name : string) (n : nat) (prio : Z) (a : Allocator)
      (k : string) :
  capacity <$> (pools (snd (try_acquire name n prio a)) !! k)
  = capacity <$> (pools a !! k).
Proof.
  unfold try_acquire.
  destruct (pools a !! name) as [p|] eqn:Hp; [|reflexivity].
  destruct (fits p n); simpl; [|reflexivity].
  destruct (decide (name = k)) as [<-|Hne].
  - now rewrite lookup_insert_eq, Hp.
  - now rewrite lookup_insert_ne.
Qed.

Lemma release_capacity (name : string) (n : nat) (a : Allocator) (k : string) :
  capacity <$> (pools (release name n a) !! k) = capacity <$> (pools a !! k).
Proof.
  unfold release.
  destruct (pools a !! name) as [p|] eqn:Hp; [|reflexivity].
  pose proof (retry_capacity (wait_set a name) (give_back p n)) as Hc.
  destruct (retry (give_back p n) (wait_set a name)) as [p' ws']. simpl in *.
  destruct (decide (name = k)) as [<-|Hne].
  - rewrite lookup_insert_eq, Hp. simpl. now rewrite Hc.
  - now rewrite lookup_insert_ne.
Qed.

(** A granted request got its slots. *)
Lemma try_acquire_granted (name : string) (n : nat) (prio : Z) (a : Allocator) :
  fst (try_acquire name n prio a) = granted ->
  exists p, pools a !! name = Some p
            /\ allocated p + n <= capacity p
            /\ pools (snd (try_acquire name n prio a)) !! name
               = Some (take p n).
Proof.
  unfold try_acquire.
  destruct (pools a !! name) as [p|] eqn:Hp; [|discriminate].
  destruct (fits p n) eqn:Hfit; simpl; [|discriminate].
  intros _. exists p. repeat split.
  - now apply Nat.leb_le.
  - now rewrite lookup_insert_eq.
Qed.

(** ** Concrete allocators *)

Definition one_slot : gmap string nat := {[ "default" := 1 ]}.

(** Two requests of equal priority on a pool of capacity 1. *)
Definition two_requests : Allocator :=
  snd (try_acquire "default" 1 0
         (snd (try_acquire "default" 1 0 (create one_slot)))).

Example first_request_granted :
  fst (try_acquire "default" 1 0 (create one_slot)) = granted.
Proof. reflexivity. Qed.

Example second_request_denied :
  fst (try_acquire "default" 1 0
         (snd (try_acquire "default" 1 0 (create one_slot)))) = denied
  /\ wait_set two_requests "default"
     = [{| slots := 1; priority_weight := 0; enqueued_at := 0 |}].
Proof. split; reflexivity. Qed.

Example released_slot_goes_to_waiter :
  pools (release "default" 1 two_requests) !! "default"
  = Some {| capacity := 1; allocated := 1 |}
  /\ wait_set (release "default" 1 two_requests) "default" = [].
Proof. split; reflexivity. Qed.

(** The earlier of two equal waiters is served; a heavier one overtakes. *)
Example waiters_in_priority_order :
  wait_set (snd (try_acquire "default" 1 5
                   (snd (try_acquire "default" 1 0 two_requests)))) "default"
  = [{| slots := 1; priority_weight := 5; enqueued_at := 2 |};
     {| slots := 1; priority_weight := 0; enqueued_at := 0 |};
     {| slots := 1; priority_weight := 0; enqueued_at := 1 |}].
Proof. reflexivity. Qed.

(** Reconfiguring the capacity is not among the steps of [reachable]:
    shrinking it below the usage leaves more allocated than the capacity. *)
Example shrinking_exceeds_capacity :
  pools (set_capacity "default" 0 two_requests) !! "default"
  = Some {| capacity := 0; allocated := 1 |}.
Proof. reflexivity. Qed.

(** C4 on the pool of one slot after two requests. *)
Lemma allocated_le_capacity_witness :
  reachable one_slot two_requests
  /\ pools two_requests !! "default" = Some {| capacity := 1; allocated := 1 |}
  /\ allocated {| capacity := 1; allocated := 1 |}
     <= capacity {| capacity := 1; allocated := 1 |}.
Proof.
  assert (reachable one_slot two_requests) as Hr
      by (unfold two_requests; apply reach_try_acquire, reach_try_acquire,
          reach_create).
  split; [exact Hr|]. split; [reflexivity|].
  exact (allocated_le_capacity one_slot two_requests "default" _ Hr eq_refl).
Defined.

End Pools.

(* ===================================================================== *)
(** * Task-instance states and the DAG *)
(* ===================================================================== *)

Module TaskInstanceState.

(** Modelled from the spec: the states of the task-instance state machine. *)
Inductive t : Type :=
| NONE | SCHEDULED | QUEUED | RUNNING
| SUCCESS | FAILED | UP_FOR_RETRY | UP_FOR_RESCHEDULE | DEFERRED
| SKIPPED | UPSTREAM_FAILED | REMOVED.

(** Modelled from the spec: SUCCESS, FAILED (retries exhausted), SKIPPED,
    UPSTREAM_FAILED and REMOVED are terminal; every other state still has a
    transition to take. *)
Definition terminal (s : t) : bool :=
  match s with
  | SUCCESS | FAILED | SKIPPED | UPSTREAM_FAILED | REMOVED => true
  | NONE | SCHEDULED | QUEUED | RUNNING
  | UP_FOR_RETRY | UP_FOR_RESCHEDULE | DEFERRED => false
  end.

(** Modelled from the spec: the classes of states the trigger rules name. *)
Definition is_success (s : t) : bool :=
  match s with SUCCESS => true | _ => false end.

(** Modelled from the spec: FAILED, or UPSTREAM_FAILED, which stands for a
    failure upstream. *)
Definition is_failed (s : t) : bool :=
  match s with FAILED | UPSTREAM_FAILED => true | _ => false end.

(** Modelled from the spec: SKIPPED. *)
Definition is_skipped (s : t) : bool :=
  match s with SKIPPED => true | _ => false end.

(** Modelled from the spec: the "done-success-compatible" terminal states,
    SUCCESS or SKIPPED. *)
Definition success_compatible (s : t) : bool :=
  match s with SUCCESS | SKIPPED => true | _ => false end.

End TaskInstanceState.

Module Deps.

Import TaskInstanceState.

(** Modelled from the spec: the supported trigger rules. *)
Inductive TriggerRule : Type :=
| ALL_SUCCESS | ALL_FAILED | ALL_DONE | ONE_SUCCESS | ONE_FAILED
| NONE_FAILED | NONE_SKIPPED | ALWAYS.

(** Modelled from the spec: the evaluator's three answers. *)
Inductive result : Type := satisfied | pending | unsatisfiable.

(** Modelled from the spec: the rule read on the states of the direct
    upstream task instances. [pending]: some upstream is not yet terminal;
    [unsatisfiable]: the terminal upstream states make the rule permanently
    false. *)
Definition by_rule (rule : TriggerRule) (upstream : list t) : result :=
  match rule with
  | ALL_SUCCESS =>
      if forallb is_success upstream then satisfied
      else if existsb (fun s => terminal s && negb (is_success s)) upstream
           then unsatisfiable else pending
  | ALL_FAILED =>
      if forallb is_failed upstream then satisfied
      else if existsb (fun s => terminal s && negb (is_failed s)) upstream
           then unsatisfiable else pending
  | ALL_DONE =>
      if forallb terminal upstream then satisfied else pending
  | ONE_SUCCESS =>
      if existsb is_success upstream then satisfied
      else if forallb terminal upstream then unsatisfiable else pending
  | ONE_FAILED =>
      if existsb is_failed upstream then satisfied
      else if forallb terminal upstream then unsatisfiable else pending
  | NONE_FAILED =>
      if existsb is_failed upstream then unsatisfiable
      else if forallb terminal upstream then satisfied else pending
  | NONE_SKIPPED =>
      if existsb is_skipped upstream then unsatisfiable
      else if forallb terminal upstream then satisfied else pending
  | ALWAYS => satisfied
  end.

(** Modelled from the spec: the Dependency Evaluator, a function of a task
    node's trigger rule and the states of its direct upstream task
    instances. Nodes with no upstream are always [satisfied]. *)
Definition evaluate (rule : TriggerRule) (upstream : list t) : result :=
  match upstream with
  | [] => satisfied
  | _ :: _ => by_rule rule upstream
  end.

End Deps.

Module Dag.

(** Modelled from the spec: a task node of the DAG. *)
Record Node : Type := {
  task_id : string;
  upstream : list string;
  downstream : list string;
  trigger_rule : Deps.TriggerRule;
  pool : string;
  priority_weight : Z;
  retries : nat
}.

(** Modelled from the spec: the DAG, given by its task nodes. *)
Definition DAG : Type := list Node.

(** Modelled from the spec: a task instance, identified by its run, its task
    and its attempt number. *)
Record TaskInstance : Type := {
  ti_run_id : string;
  ti_task_id : string;
  attempt : nat;
  ti_state : TaskInstanceState.t
}.

(** Modelled from the spec: a DagRun. *)
Record DagRun : Type := {
  run_id : string;
  dag_id : string;
  logical_date : option datetime;
  run_after : datetime;
  state : DagRunState.t;
  conf : dict;
  queued_at : option datetime;
  start_date : option datetime;
  end_date : option datetime
}.

(** Modelled from the spec: the DagRun with its state replaced. *)
Definition set_state (dr : DagRun) (s : DagRunState.t) : DagRun :=
  {| run_id := run_id dr; dag_id := dag_id dr;
     logical_date := logical_date dr; run_after := run_after dr;
     state := s; conf := conf dr; queued_at := queued_at dr;
     start_date := start_date dr; end_date := end_date dr |}.

(** Modelled from the spec: the instance belongs to the run [run] and the
    task [task] (a task instance is identified by run, task and attempt). *)
Definition instance_of (run task : string) (ti : TaskInstance) : bool :=
  String.eqb (ti_run_id ti) run && String.eqb (ti_task_id ti) task.

(** Modelled from the spec: the instance of the highest attempt number
    among [tis] (a retry adds a record with the next attempt number). *)
Fixpoint latest (tis : list TaskInstance) : option TaskInstance :=
  match tis with
  | [] => None
  | ti :: tis' =>
      match latest tis' with
      | Some ti' => if (attempt ti <? attempt ti')%nat then Some ti' else Some ti
      | None => Some ti
      end
  end.

(** Modelled from the spec: the state the task is in within the run, that
    of its latest attempt; NONE, the initial state, when it has no instance
    yet. *)
Definition state_of (run : string) (tis : list TaskInstance) (task : string)
  : TaskInstanceState.t :=
  match latest (List.filter (fun ti => instance_of run task ti) tis) with
  | Some ti => ti_state ti
  | None => TaskInstanceState.NONE
  end.

(** Modelled from the spec: the states of a node's direct upstream task
    instances, the evaluator's second input. *)
Definition upstream_states (run : string) (tis : list TaskInstance) (n : Node)
  : list TaskInstanceState.t :=
  map (state_of run tis) (upstream n).

(** Modelled from the spec: the Dependency Evaluator asked about a node of
    a run. *)
Definition dependencies (run : string) (tis : list TaskInstance) (n : Node)
  : Deps.result :=
  Deps.evaluate (trigger_rule n) (upstream_states run tis n).

(** C6. For a node with no upstream edges the Dependency Evaluator answers
    [satisfied], whatever the node's trigger rule and whatever the states of
    the task instances. *)
Theorem no_upstream_is_satisfied
    (run : string) (tis : list TaskInstance) (n : Node) :
  upstream n = [] -> dependencies run tis n = Deps.satisfied.
Proof.
  intros Hup. unfold dependencies, upstream_states.
  rewrite Hup. reflexivity.
Qed.

(** The spec's property for ALL_SUCCESS: a FAILED upstream makes the rule
    unsatisfiable, for good. *)
Lemma all_success_failed_upstream (upstream : list TaskInstanceState.t) :
  In TaskInstanceState.FAILED upstream ->
  Deps.evaluate Deps.ALL_SUCCESS upstream = Deps.unsatisfiable.
Proof.
  intros Hin. destruct upstream as [|s ups]; [destruct Hin|].
  unfold Deps.evaluate, Deps.by_rule.
  assert (forallb TaskInstanceState.is_success (s :: ups) = false) as ->.
  { apply not_true_is_false. intros Hall.
    rewrite forallb_forall in Hall. apply Hall in Hin. discriminate. }
  assert (existsb (fun s0 => TaskInstanceState.terminal s0
                             && negb (TaskInstanceState.is_success s0))
                  (s :: ups) = true) as ->.
  { apply existsb_exists. exists TaskInstanceState.FAILED. now split. }
  reflexivity.
Qed.

(** On the rule alone, without the clause for nodes with no upstream, the
    "one" rules would never be met by such a node. *)
Example one_success_by_rule_alone :
  Deps.by_rule Deps.ONE_SUCCESS [] = Deps.unsatisfiable
  /\ Deps.by_rule Deps.ONE_FAILED [] = Deps.unsatisfiable
  /\ Deps.evaluate Deps.ONE_SUCCESS [] = Deps.satisfied.
Proof. repeat split. Qed.

(** A root node under ONE_FAILED. *)
Definition root_node : Node :=
  {| task_id := "extract"; upstream := []; downstream := ["load"];
     trigger_rule := Deps.ONE_FAILED; pool := "default";
     priority_weight := 1; retries := 0 |}.

(** C6 on a root node under ONE_FAILED. *)
Lemma no_upstream_is_satisfied_witness :
  upstream root_node = []
  /\ dependencies "run_1" [] root_node = Deps.satisfied.
Proof.
  split; [reflexivity|].
  exact (no_upstream_is_satisfied "run_1" [] root_node eq_refl).
Defined.

End Dag.

(* ===================================================================== *)
(** * The task-instance state machine *)
(* ===================================================================== *)

Module StateMachine.

Import Dag.

#[global] Instance TaskInstanceState_eq_dec : EqDecision TaskInstanceState.t.
Proof. solve_decision. Defined.

(** Modelled from the spec: the retry count the DAG configures for the
    task; none for a task the DAG does not define. *)
Definition max_retries (dag : DAG) (task : string) : nat :=
  match List.find (fun n => String.eqb (task_id n) task) dag with
  | Some n => retries n
  | None => 0
  end.

(** Modelled from the spec: the instance has come to rest. Its state is
    terminal, and "FAILED is terminal once attempt count reaches the node's
    configured maximum retries; otherwise FAILED transitions to
    UP_FOR_RETRY". Attempts count from 1: with two retries the attempts 1
    and 2 are retried and a failure of attempt 3 is permanent. *)
Definition settled (dag : DAG) (ti : TaskInstance) : bool :=
  match ti_state ti with
  | TaskInstanceState.FAILED =>
      (max_retries dag (ti_task_id ti) <? attempt ti)%nat
  | s => TaskInstanceState.terminal s
  end.

(** Modelled from the spec: the arrows of the state machine, for an
    instance at attempt [attempt] of a task with [retries] retries.
    NONE -> SCHEDULED -> QUEUED -> RUNNING -> SUCCESS, FAILED, UP_FOR_RETRY,
    UP_FOR_RESCHEDULE or DEFERRED; UP_FOR_RETRY, UP_FOR_RESCHEDULE and
    DEFERRED -> SCHEDULED; SKIPPED and UPSTREAM_FAILED from NONE or
    SCHEDULED; FAILED -> UP_FOR_RETRY while a retry is left. The spec does
    not say from which states REMOVED is reached: it is taken to be reached
    from every state that is not terminal. The conditions under which the
    scheduler takes an arrow (dependencies met, a slot granted, the backoff
    elapsed, the node gone from the DAG) are left out, so the machine has
    every move the scheduler has. *)
Definition allowed (retries attempt : nat) (from to : TaskInstanceState.t)
  : bool :=
  match from, to with
  | TaskInstanceState.NONE, TaskInstanceState.SCHEDULED => true
  | TaskInstanceState.SCHEDULED, TaskInstanceState.QUEUED => true
  | TaskInstanceState.QUEUED, TaskInstanceState.RUNNING => true
  | TaskInstanceState.RUNNING, TaskInstanceState.SUCCESS => true
  | TaskInstanceState.RUNNING, TaskInstanceState.FAILED => true
  | TaskInstanceState.RUNNING, TaskInstanceState.UP_FOR_RETRY => true
  | TaskInstanceState.RUNNING, TaskInstanceState.UP_FOR_RESCHEDULE => true
  | TaskInstanceState.RUNNING, TaskInstanceState.DEFERRED => true
  | TaskInstanceState.UP_FOR_RETRY, TaskInstanceState.SCHEDULED => true
  | TaskInstanceState.UP_FOR_RESCHEDULE, TaskInstanceState.SCHEDULED => true
  | TaskInstanceState.DEFERRED, TaskInstanceState.SCHEDULED => true
  | TaskInstanceState.NONE, TaskInstanceState.SKIPPED => true
  | TaskInstanceState.NONE, TaskInstanceState.UPSTREAM_FAILED => true
  | TaskInstanceState.SCHEDULED, TaskInstanceState.SKIPPED => true
  | TaskInstanceState.SCHEDULED, TaskInstanceState.UPSTREAM_FAILED => true
  | TaskInstanceState.FAILED, TaskInstanceState.UP_FOR_RETRY =>
      (attempt <=? retries)%nat
  | _, TaskInstanceState.REMOVED => negb (TaskInstanceState.terminal from)
  | _, _ => false
  end.

(** Modelled from the spec: a transition a writer asks for: the task, the
    key (state, attempt number) the writer has read, and the state to move
    to. *)
Record Transition : Type := {
  tr_task : string;
  tr_from : TaskInstanceState.t;
  tr_attempt : nat;
  tr_to : TaskInstanceState.t
}.

(** Modelled from the spec: the instance a task stands at within a run,
    that of its latest attempt. *)
Definition current_instance
    (run : string) (tis : list TaskInstance) (task : string)
  : option TaskInstance :=
  latest (List.filter (fun ti => instance_of run task ti) tis).

Definition with_state (ti : TaskInstance) (s : TaskInstanceState.t)
  : TaskInstance :=
  {| ti_run_id := ti_run_id ti; ti_task_id := ti_task_id ti;
     attempt := attempt ti; ti_state := s |}.

(** The record of the same run, task and attempt. *)
Definition same_key (ti x : TaskInstance) : bool :=
  instance_of (ti_run_id ti) (ti_task_id ti) x
  && (attempt x =? attempt ti)%nat.

Definition write (ti : TaskInstance) (s : TaskInstanceState.t)
    (tis : list TaskInstance) : list TaskInstance :=
  map (fun x => if same_key ti x then with_state x s else x) tis.

(** Modelled from the spec: "a new attempt record increments attempt number
    on retry"; the new attempt starts SCHEDULED. *)
Definition next_attempt (ti : TaskInstance) : TaskInstance :=
  {| ti_run_id := ti_run_id ti; ti_task_id := ti_task_id ti;
     attempt := S (attempt ti); ti_state := TaskInstanceState.SCHEDULED |}.

(** Modelled from the spec: "every transition is a compare-and-swap keyed on
    (current state, attempt number); a stale writer's transition is
    rejected". The transition is applied when the task's current instance
    has the state and the attempt number the writer read and the state
    machine has the arrow; it is rejected ([None]) otherwise, and the task
    instances stay as they are. *)
Definition transition
    (dag : DAG) (run : string) (tis : list TaskInstance) (req : Transition)
  : option (list TaskInstance) :=
  match current_instance run tis (tr_task req) with
  | None => None
  | Some ti =>
      if bool_decide (ti_state ti = tr_from req)
         && (attempt ti =? tr_attempt req)%nat
         && allowed (max_retries dag (tr_task req)) (attempt ti)
                    (ti_state ti) (tr_to req)
      then Some (match ti_state ti, tr_to req with
                 | TaskInstanceState.UP_FOR_RETRY,
                   TaskInstanceState.SCHEDULED => tis ++ [next_attempt ti]
                 | _, _ => write ti (tr_to req) tis
                 end)
      else None
  end.

(** The transitions of a list, one after the other, as long as none is
    rejected. *)
Fixpoint transitions
    (dag : DAG) (run : string) (tis : list TaskInstance)
    (reqs : list Transition) : option (list TaskInstance) :=
  match reqs with
  | [] => Some tis
  | req :: reqs' =>
      match transition dag run tis req with
      | Some tis' => transitions dag run tis' reqs'
      | None => None
      end
  end.






End StateMachine.

(* ===================================================================== *)
(** * The DagRun manager *)
(* ===================================================================== *)

Module DagRunManager.

Import Dag.
Import StateMachine.

(** Modelled from the spec: a leaf node, one without downstream edges. *)
Definition is_leaf (n : Node) : bool :=
  match downstream n with [] => true | _ :: _ => false end.

(** Modelled from the spec: the instance is the latest attempt of its task
    within its run. *)
Definition current (tis : list TaskInstance) (ti : TaskInstance) : bool :=
  forallb (fun ti' =>
             negb (instance_of (ti_run_id ti) (ti_task_id ti) ti')
             || (attempt ti' <=? attempt ti)%nat) tis.

(** Modelled from the spec: some instance of the run is not terminal, be it
    a node of the DAG whose current instance has not come to rest (or which
    has no instance yet, and so is in the initial state NONE), or a current
    instance of the run that has not. *)
Definition any_non_terminal (dag : DAG) (run : string) (tis : list TaskInstance)
  : bool :=
  existsb (fun n => match current_instance run tis (task_id n) with
                    | Some ti => negb (settled dag ti)
                    | None => true
                    end) dag
  || existsb (fun ti => String.eqb (ti_run_id ti) run && current tis ti
                        && negb (settled dag ti))
             tis.

(** Modelled from the spec: [evaluate(dag, dag_run, task_instances)]:
    RUNNING while any instance is non-terminal; SUCCESS when every leaf node
    is in a done-success-compatible terminal state; FAILED otherwise, that
    is when a FAILED (retries exhausted) or UPSTREAM_FAILED node keeps a
    leaf from it. *)
Definition evaluate (dag : DAG) (dag_run : DagRun) (tis : list TaskInstance)
  : DagRunState.t :=
  if any_non_terminal dag (run_id dag_run) tis then DagRunState.RUNNING
  else if forallb (fun n => TaskInstanceState.success_compatible
                              (state_of (run_id dag_run) tis (task_id n)))
                  (List.filter (fun n => is_leaf n) dag)
       then DagRunState.SUCCESS
       else DagRunState.FAILED.

(** Modelled from the spec: the DagRun is mutated only by the manager, which
    stores the state it has evaluated. *)
Definition update_state (dag : DAG) (dag_run : DagRun) (tis : list TaskInstance)
  : DagRun :=
  set_state dag_run (evaluate dag dag_run tis).

(** Modelled from the spec: the task instances created with the DagRun, one
    per DAG node, at attempt 1 and in the initial state NONE. *)
Definition create (dag : DAG) (dag_run : DagRun) : list TaskInstance :=
  map (fun n => {| ti_run_id := run_id dag_run; ti_task_id := task_id n;
                   attempt := 1; ti_state := TaskInstanceState.NONE |}) dag.

(** Modelled from the spec: the states a DagRun and its task instances go
    through. The run is created QUEUED with its task instances; the task
    instances of the run move by the compare-and-swap transitions of the
    state machine, in any order; and the manager re-aggregates the state of
    the run at any time. Requests from outside (a clear, a cancellation) and
    the failing of a run on a fatal configuration error are not among the
    steps: the spec does not say what they do to the task instances. *)
Inductive reachable (dag : DAG) : DagRun -> list TaskInstance -> Prop :=
| reach_created dr :
    state dr = DagRunState.QUEUED ->
    reachable dag dr (create dag dr)
| reach_transition dr tis req tis' :
    reachable dag dr tis ->
    transition dag (run_id dr) tis req = Some tis' ->
    reachable dag dr tis'
| reach_evaluated dr tis :
    reachable dag dr tis ->
    reachable dag (update_state dag dr tis) tis.










(** ** The spec's scenario: A -> B -> C, all ALL_SUCCESS *)

Definition node (id : string) (up down : list string) : Node :=
  {| task_id := id; upstream := up; downstream := down;
     trigger_rule := Deps.ALL_SUCCESS; pool := "default";
     priority_weight := 1; retries := 0 |}.

Definition chain : DAG :=
  [node "A" [] ["B"]; node "B" ["A"] ["C"]; node "C" ["B"] []].

Definition instance (task : string) (s : TaskInstanceState.t) : TaskInstance :=
  {| ti_run_id := "run_1"; ti_task_id := task; attempt := 1; ti_state := s |}.

Definition run_1 (s : DagRunState.t) : DagRun :=
  {| run_id := "run_1"; dag_id := "chain"; logical_date := None;
     run_after := {| instant := 0; utcoffset := Some 0%Z |};
     state := s; conf := []; queued_at := None; start_date := None;
     end_date := None |}.

Example chain_created :
  create chain (run_1 DagRunState.QUEUED)
  = [instance "A" TaskInstanceState.NONE;
     instance "B" TaskInstanceState.NONE;
     instance "C" TaskInstanceState.NONE]
  /\ evaluate chain (run_1 DagRunState.QUEUED)
       (create chain (run_1 DagRunState.QUEUED)) = DagRunState.RUNNING.
Proof. split; reflexivity. Qed.

Example chain_running :
  evaluate chain (run_1 DagRunState.QUEUED)
           [instance "A" TaskInstanceState.SUCCESS;
            instance "B" TaskInstanceState.RUNNING;
            instance "C" TaskInstanceState.NONE] = DagRunState.RUNNING.
Proof. reflexivity. Qed.

Example chain_failed :
  evaluate chain (run_1 DagRunState.RUNNING)
           [instance "A" TaskInstanceState.SUCCESS;
            instance "B" TaskInstanceState.FAILED;
            instance "C" TaskInstanceState.UPSTREAM_FAILED] = DagRunState.FAILED
  /\ dependencies "run_1" [instance "A" TaskInstanceState.SUCCESS;
                           instance "B" TaskInstanceState.FAILED;
                           instance "C" TaskInstanceState.NONE]
                  (node "C" ["B"] []) = Deps.unsatisfiable.
Proof. split; reflexivity. Qed.

Example chain_success :
  evaluate chain (run_1 DagRunState.RUNNING)
           [instance "A" TaskInstanceState.SUCCESS;
            instance "B" TaskInstanceState.SUCCESS;
            instance "C" TaskInstanceState.SUCCESS] = DagRunState.SUCCESS.
Proof. reflexivity. Qed.

(** A retried task counts with its latest attempt. *)
Example chain_retry :
  evaluate chain (run_1 DagRunState.RUNNING)
           [instance "A" TaskInstanceState.SUCCESS;
            instance "B" TaskInstanceState.UP_FOR_RETRY;
            {| ti_run_id := "run_1"; ti_task_id := "B"; attempt := 2;
               ti_state := TaskInstanceState.SUCCESS |};
            instance "C" TaskInstanceState.SUCCESS] = DagRunState.SUCCESS.
Proof. reflexivity. Qed.

(** The moves of a task that runs: NONE, SCHEDULED, QUEUED, RUNNING, and
    the state it ends in. *)
Definition runs_to (task : string) (attempt : nat) (s : TaskInstanceState.t)
  : list Transition :=
  [{| tr_task := task; tr_from := TaskInstanceState.SCHEDULED;
      tr_attempt := attempt; tr_to := TaskInstanceState.QUEUED |};
   {| tr_task := task; tr_from := TaskInstanceState.QUEUED;
      tr_attempt := attempt; tr_to := TaskInstanceState.RUNNING |};
   {| tr_task := task; tr_from := TaskInstanceState.RUNNING;
      tr_attempt := attempt; tr_to := s |}].

Definition schedule (task : string) : Transition :=
  {| tr_task := task; tr_from := TaskInstanceState.NONE;
     tr_attempt := 1; tr_to := TaskInstanceState.SCHEDULED |}.

(** The spec's scenario: A succeeds, B fails with no retry, C becomes
    UPSTREAM_FAILED. *)
Definition b_fails : list Transition :=
  (schedule "A" :: runs_to "A" 1 TaskInstanceState.SUCCESS)
  ++ (schedule "B" :: runs_to "B" 1 TaskInstanceState.FAILED)
  ++ [{| tr_task := "C"; tr_from := TaskInstanceState.NONE;
         tr_attempt := 1; tr_to := TaskInstanceState.UPSTREAM_FAILED |}].

Definition b_failed : list TaskInstance :=
  [instance "A" TaskInstanceState.SUCCESS;
   instance "B" TaskInstanceState.FAILED;
   instance "C" TaskInstanceState.UPSTREAM_FAILED].

Example chain_b_fails :
  transitions chain "run_1" (create chain (run_1 DagRunState.QUEUED)) b_fails
  = Some b_failed
  /\ update_state chain (run_1 DagRunState.QUEUED) b_failed
     = run_1 DagRunState.FAILED.
Proof. split; reflexivity. Qed.



(** A task with one retry: the first attempt fails and is retried, the
    second succeeds. As long as the failed attempt has a retry left the run
    is RUNNING. *)
Definition flaky : DAG :=
  [{| task_id := "A"; upstream := []; downstream := [];
      trigger_rule := Deps.ALL_SUCCESS; pool := "default";
      priority_weight := 1; retries := 1 |}].

Example flaky_first_failure :
  transitions flaky "run_1" (create flaky (run_1 DagRunState.QUEUED))
    (schedule "A" :: runs_to "A" 1 TaskInstanceState.FAILED)
  = Some [instance "A" TaskInstanceState.FAILED]
  /\ evaluate flaky (run_1 DagRunState.QUEUED)
       [instance "A" TaskInstanceState.FAILED] = DagRunState.RUNNING.
Proof. split; reflexivity. Qed.

Example flaky_retried :
  transitions flaky "run_1" [instance "A" TaskInstanceState.FAILED]
    ([{| tr_task := "A"; tr_from := TaskInstanceState.FAILED;
         tr_attempt := 1; tr_to := TaskInstanceState.UP_FOR_RETRY |};
      {| tr_task := "A"; tr_from := TaskInstanceState.UP_FOR_RETRY;
         tr_attempt := 1; tr_to := TaskInstanceState.SCHEDULED |}]
     ++ runs_to "A" 2 TaskInstanceState.FAILED)
  = Some [instance "A" TaskInstanceState.UP_FOR_RETRY;
          {| ti_run_id := "run_1"; ti_task_id := "A"; attempt := 2;
             ti_state := TaskInstanceState.FAILED |}]
  /\ evaluate flaky (run_1 DagRunState.RUNNING)
       [instance "A" TaskInstanceState.UP_FOR_RETRY;
        {| ti_run_id := "run_1"; ti_task_id := "A"; attempt := 2;
           ti_state := TaskInstanceState.FAILED |}] = DagRunState.FAILED
  /\ transition flaky "run_1"
       [instance "A" TaskInstanceState.UP_FOR_RETRY;
        {| ti_run_id := "run_1"; ti_task_id := "A"; attempt := 2;
           ti_state := TaskInstanceState.FAILED |}]
       {| tr_task := "A"; tr_from := TaskInstanceState.FAILED;
          tr_attempt := 2; tr_to := TaskInstanceState.UP_FOR_RETRY |} = None.
Proof. repeat split. Qed.

(** A stale writer, which read attempt 1, is rejected once attempt 2
    exists. *)
Example stale_writer_rejected :
  transition flaky "run_1"
    [instance "A" TaskInstanceState.UP_FOR_RETRY;
     {| ti_run_id := "run_1"; ti_task_id := "A"; attempt := 2;
        ti_state := TaskInstanceState.SCHEDULED |}]
    {| tr_task := "A"; tr_from := TaskInstanceState.UP_FOR_RETRY;
       tr_attempt := 1; tr_to := TaskInstanceState.SCHEDULED |} = None.
Proof. reflexivity. Qed.

End DagRunManager.

(* ===================================================================== *)
(** * [airflow/api_fastapi/app.py] *)
(* ===================================================================== *)

Module ApiApp.

Local Open Scope string_scope.

(** [s.split(c)] for a one-character [c]. *)
Fixpoint split (c : ascii) (s : string) : list string :=
  match s with
  | EmptyString => [EmptyString]
  | String a s' =>
      if Ascii.eqb a c then EmptyString :: split c s'
      else match split c s' with
           | h :: t => String a h :: t
           | [] => [String a EmptyString]
           end
  end.

(** [s.endswith(c)] for a one-character [c]. *)
Fixpoint endswith (c : ascii) (s : string) : bool :=
  match s with
  | EmptyString => false
  | String a EmptyString => Ascii.eqb a c
  | String _ s' => endswith c s'
  end.

(** [s.removesuffix(c)] for a one-character [c]. *)
Fixpoint removesuffix (c : ascii) (s : string) : string :=
  match s with
  | EmptyString => EmptyString
  | String a EmptyString => if Ascii.eqb a c then EmptyString else s
  | String a s' => String a (removesuffix c s')
  end.

(** [x in xs] for a list of strings. *)
Definition mem (x : string) (xs : list string) : bool :=
  existsb (String.eqb x) xs.

(** What the module raises. *)
Inductive exn : Type :=
| AirflowConfigException (msg : string)
| RuntimeError (msg : string).

(** The initialisers of [airflow.api_fastapi.core_api.app]; their code is
    not among the sources, an application records which were applied. *)
Inductive initialiser : Type :=
| init_config | init_dag_bag | init_error_handlers | init_flask_plugins
| init_middlewares | init_plugins | init_views.

Definition no_auth_manager_message : string :=
  "No auth manager defined in the config. "
  ++ "Please specify one using section/key [core/auth_manager].".

Definition not_initialized_message : string :=
  "Auth Manager has not been initialized yet. "
  ++ "The `init_auth_manager` method needs to be called first.".

Definition api_description : string :=
  "Airflow API. All endpoints located under ``/public`` can be used safely, are stable and backward compatible. "
  ++ "Endpoints located under ``/ui`` are dedicated to the UI and are subject to breaking change "
  ++ "depending on the need of the frontend. Users should not rely on those but use the public ones instead.".

Section App.

(** The collaborators of the module that are not among the sources: the
    applications mounted under the main one, with the task-execution API
    that [create_task_execution_api_app()] builds and what
    [init_error_handlers] makes of it; the auth-manager classes and their
    instances, with the constructor, [init()] and [get_fastapi_app()]; and
    the path component [urlsplit] finds in a URL. *)
Context {SubApp AuthManagerCls AuthManager : Type}.
Context (task_execution_api_app : SubApp).
Context (sub_init_error_handlers : SubApp -> SubApp).
Context (instantiate : AuthManagerCls -> AuthManager).
Context (am_init : AuthManager -> AuthManager).
Context (get_fastapi_app : AuthManager -> option SubApp).
Context (urlsplit_path : string -> string).

(** What was done to a [FastAPI] application, in order. *)
Inductive step : Type :=
| applied (i : initialiser)
| mounted (path : string) (sub : SubApp).

(** A [FastAPI] application: the arguments it was built with, what was done
    to it since, and [app.state.auth_manager]. *)
Record FastAPI : Type := {
  title : string;
  description : string;
  root_path : string;
  history : list step;
  state_auth_manager : option AuthManager
}.

(** The module's globals [app] and [auth_manager], and the two settings of
    [conf] it reads: [api/base_url] (the empty string when unset) and the
    class [core/auth_manager] imports to. *)
Record Globals : Type := {
  app : option FastAPI;
  auth_manager : option AuthManager;
  conf_base_url : string;
  conf_auth_manager : option AuthManagerCls
}.

Definition M (A : Type) : Type := Globals -> (exn + A) * Globals.

Definition ret {A} (a : A) : M A := fun g => (inr a, g).

Definition raise {A} (e : exn) : M A := fun g => (inl e, g).

Definition bind {A B} (m : M A) (k : A -> M B) : M B :=
  fun g =>
    match m g with
    | (inl e, g') => (inl e, g')
    | (inr a, g') => k a g'
    end.

Notation "x <- m ;; k" := (bind m (fun x => k))
  (at level 100, m at next level, right associativity).

Definition get : M Globals := fun g => (inr g, g).

Definition put (g : Globals) : M unit := fun _ => (inr tt, g).

(** [init(app)], [app.mount(path, sub)], [app.state.auth_manager = am] *)
Definition apply_init (i : initialiser) (a : FastAPI) : FastAPI :=
  {| title := title a; description := description a;
     root_path := root_path a;
     history := history a ++ [applied i];
     state_auth_manager := state_auth_manager a |}.

Definition mount (path : string) (sub : SubApp) (a : FastAPI) : FastAPI :=
  {| title := title a; description := description a;
     root_path := root_path a;
     history := history a ++ [mounted path sub];
     state_auth_manager := state_auth_manager a |}.

Definition set_state_auth_manager (am : AuthManager) (a : FastAPI) : FastAPI :=
  {| title := title a; description := description a;
     root_path := root_path a;
     history := history a;
     state_auth_manager := Some am |}.

(** [def get_auth_manager_cls()] *)
Definition get_auth_manager_cls : M AuthManagerCls :=
  g <- get ;;
  match conf_auth_manager g with
  | None => raise (AirflowConfigException no_auth_manager_message)
  | Some auth_manager_cls => ret auth_manager_cls
  end.

(** [def create_auth_manager()] *)
Definition create_auth_manager : M AuthManager :=
  auth_manager_cls <- get_auth_manager_cls ;;
  g <- get ;;
  let am := instantiate auth_manager_cls in
  _ <- put {| app := app g; auth_manager := Some am;
              conf_base_url := conf_base_url g;
              conf_auth_manager := conf_auth_manager g |} ;;
  ret am.

(** [def init_auth_manager(app=None)]. [am.init()] changes the object the
    global [auth_manager] refers to as well; the application passed in is
    changed in place and is returned here beside the manager. *)
Definition init_auth_manager (a : option FastAPI)
  : M (AuthManager * option FastAPI) :=
  am <- create_auth_manager ;;
  g <- get ;;
  let am := am_init am in
  _ <- put {| app := app g; auth_manager := Some am;
              conf_base_url := conf_base_url g;
              conf_auth_manager := conf_auth_manager g |} ;;
  match a, get_fastapi_app am with
  | Some a, Some auth_manager_fastapi_app =>
      ret (am, Some (set_state_auth_manager am
                       (mount "/auth" auth_manager_fastapi_app a)))
  | _, _ => ret (am, a)
  end.

(** [def get_auth_manager()] *)
Definition get_auth_manager : M AuthManager :=
  g <- get ;;
  match auth_manager g with
  | None => raise (RuntimeError not_initialized_message)
  | Some am => ret am
  end.

(** The base URL with the slash [create_app] adds. *)
Definition with_slash (base_url : string) : string :=
  if negb (String.eqb base_url "") && negb (endswith "/" base_url)
  then base_url ++ "/"
  else base_url.

(** [def create_app(apps="all")]. The [lifespan] argument of [FastAPI],
    a reference to the function of this name, is left out. *)
Definition create_app (apps : string) : M FastAPI :=
  let apps_list := if negb (String.eqb apps "") then split "," apps
                   else ["all"] in
  g <- get ;;
  let fastapi_base_url := conf_base_url g in
  fastapi_base_url <-
    (if negb (String.eqb fastapi_base_url "")
        && negb (endswith "/" fastapi_base_url)
     then
       let fastapi_base_url := fastapi_base_url ++ "/" in
       _ <- put {| app := app g; auth_manager := auth_manager g;
                   conf_base_url := fastapi_base_url;
                   conf_auth_manager := conf_auth_manager g |} ;;
       ret fastapi_base_url
     else ret fastapi_base_url) ;;
  let root_path := removesuffix "/" (urlsplit_path fastapi_base_url) in
  let a := {| title := "Airflow API";
              description := api_description;
              root_path := root_path;
              history := []; state_auth_manager := None |} in
  let a :=
    if mem "execution" apps_list || mem "all" apps_list then
      mount "/execution" (sub_init_error_handlers task_execution_api_app) a
    else a in
  a <- (if mem "core" apps_list || mem "all" apps_list then
          let a := apply_init init_plugins (apply_init init_dag_bag a) in
          r <- init_auth_manager (Some a) ;;
          let a := match snd r with Some a' => a' | None => a end in
          ret (apply_init init_middlewares
                 (apply_init init_error_handlers
                    (apply_init init_views
                       (apply_init init_flask_plugins a))))
        else ret a) ;;
  ret (apply_init init_config a).

(** [def cached_app(config=None, testing=False, apps="all")] *)
Definition cached_app (apps : string) : M FastAPI :=
  g <- get ;;
  match app g with
  | Some a => ret a
  | None =>
      a <- create_app apps ;;
      g <- get ;;
      _ <- put {| app := Some a; auth_manager := auth_manager g;
                  conf_base_url := conf_base_url g;
                  conf_auth_manager := conf_auth_manager g |} ;;
      ret a
  end.

(** [def purge_cached_app()] *)
Definition purge_cached_app : M unit :=
  g <- get ;;
  put {| app := None; auth_manager := auth_manager g;
         conf_base_url := conf_base_url g;
         conf_auth_manager := conf_auth_manager g |}.

(** ** What the module guarantees *)

Set Default Proof Using "Type".

(** The applications [apps] asks for. *)
Definition apps_list (apps : string) : list string :=
  if negb (String.eqb apps "") then split "," apps else ["all"].

Definition core_requested (apps : string) : bool :=
  mem "core" (apps_list apps) || mem "all" (apps_list apps).

Definition execution_requested (apps : string) : bool :=
  mem "execution" (apps_list apps) || mem "all" (apps_list apps).

(** The globals once [create_app] has looked at the base URL. *)
Definition slashed (g : Globals) : Globals :=
  if negb (String.eqb (conf_base_url g) "")
     && negb (endswith "/" (conf_base_url g))
  then {| app := app g; auth_manager := auth_manager g;
          conf_base_url := conf_base_url g ++ "/";
          conf_auth_manager := conf_auth_manager g |}
  else g.

(** The application before the core is initialised. *)
Definition fresh_app (apps : string) (g : Globals) : FastAPI :=
  let a := {| title := "Airflow API"; description := api_description;
              root_path := removesuffix "/"
                             (urlsplit_path (with_slash (conf_base_url g)));
              history := []; state_auth_manager := None |} in
  if execution_requested apps then
    mount "/execution" (sub_init_error_handlers task_execution_api_app) a
  else a.

(** The core initialised around the auth manager [am]. *)
Definition core_app (am : AuthManager) (a : FastAPI) : FastAPI :=
  let a := apply_init init_plugins (apply_init init_dag_bag a) in
  let a := match get_fastapi_app am with
           | Some sub => set_state_auth_manager am (mount "/auth" sub a)
           | None => a
           end in
  apply_init init_middlewares
    (apply_init init_error_handlers
       (apply_init init_views (apply_init init_flask_plugins a))).

Lemma slashed_fields (g : Globals) :
  app (slashed g) = app g
  /\ auth_manager (slashed g) = auth_manager g
  /\ conf_auth_manager (slashed g) = conf_auth_manager g
  /\ conf_base_url (slashed g) = with_slash (conf_base_url g).
Proof.
  unfold slashed, with_slash.
  destruct (negb (String.eqb (conf_base_url g) "")
            && negb (endswith "/" (conf_base_url g))); repeat split.
Qed.

(** [create_app], case by case. *)
Lemma create_app_cases (apps : string) (g : Globals) :
  create_app apps g
  = if core_requested apps then
      match conf_auth_manager g with
      | None =>
          (inl (AirflowConfigException no_auth_manager_message), slashed g)
      | Some cls =>
          let am := am_init (instantiate cls) in
          (inr (apply_init init_config (core_app am (fresh_app apps g))),
           {| app := app g; auth_manager := Some am;
              conf_base_url := with_slash (conf_base_url g);
              conf_auth_manager := conf_auth_manager g |})
      end
    else (inr (apply_init init_config (fresh_app apps g)), slashed g).
Proof.
  unfold create_app, core_requested, execution_requested, fresh_app,
    core_app, slashed, with_slash.
  fold (apps_list apps).
  unfold init_auth_manager, create_auth_manager, get_auth_manager_cls.
  unfold bind, get, put, ret, raise. simpl.
  destruct (negb (String.eqb (conf_base_url g) "")
            && negb (endswith "/" (conf_base_url g))) eqn:Hs; simpl;
    destruct (mem "core" (apps_list apps) || mem "all" (apps_list apps));
    simpl; try reflexivity;
    destruct (conf_auth_manager g) as [cls|] eqn:Hc; simpl;
      try reflexivity;
    destruct (get_fastapi_app (am_init (instantiate cls)));
      simpl; rewrite ?Hc; reflexivity.
Qed.

Lemma endswith_snoc (c : ascii) (s : string) :
  endswith c (s ++ String c "") = true.
Proof.
  induction s as [|a s IH]; [simpl; apply Ascii.eqb_refl|].
  change (String a s ++ String c "") with (String a (s ++ String c "")).
  simpl. destruct (s ++ String c "") eqn:E; [destruct s; discriminate|].
  exact IH.
Qed.

(** X: [create_app] leaves the configured base URL empty or ending in a
    slash, whether it returns or raises: a non-empty URL without a final
    slash gets one, any other is kept, and a second run adds nothing; the
    cached application and the configured auth-manager class are not
    touched. *)
Theorem create_app_base_url
    (apps : string) (g g' : Globals) (r : exn + FastAPI) :
  create_app apps g = (r, g') ->
  conf_base_url g' = with_slash (conf_base_url g)
  /\ (conf_base_url g' = "" \/ endswith "/" (conf_base_url g') = true)
  /\ with_slash (conf_base_url g') = conf_base_url g'
  /\ app g' = app g
  /\ conf_auth_manager g' = conf_auth_manager g.
Proof.
  intros H.
  assert (conf_base_url g' = with_slash (conf_base_url g)
          /\ app g' = app g /\ conf_auth_manager g' = conf_auth_manager g)
    as (Hb & Ha & Hc).
  { rewrite create_app_cases in H.
    destruct (slashed_fields g) as (S1 & S2 & S3 & S4).
    destruct (core_requested apps);
      [destruct (conf_auth_manager g) as [cls|] eqn:Hcls|];
      inversion H; subst; simpl; repeat split; try assumption; congruence. }
  assert (with_slash (conf_base_url g) = ""
          \/ endswith "/" (with_slash (conf_base_url g)) = true) as Hend.
  { unfold with_slash.
    destruct (String.eqb (conf_base_url g) "") eqn:E; simpl.
    - left. now apply String.eqb_eq.
    - right. destruct (endswith "/" (conf_base_url g)) eqn:E2; simpl;
        [exact E2 | apply endswith_snoc]. }
  rewrite Hb. repeat split; try assumption.
  unfold with_slash at 1.
  destruct Hend as [-> | ->]; [reflexivity|].
  now rewrite andb_false_r.
Qed.

(** X: after a [create_app] that initialised the core, [get_auth_manager]
    returns the auth manager of the configured class, initialised, the very
    one stored as the application's [state.auth_manager] when it brings an
    application of its own; a [create_app] without the core leaves the
    global auth manager as it was. *)
Theorem create_app_sets_auth_manager
    (apps : string) (g g' : Globals) (a : FastAPI) :
  create_app apps g = (inr a, g') ->
  if core_requested apps then
    exists cls,
      conf_auth_manager g = Some cls
      /\ get_auth_manager g' = (inr (am_init (instantiate cls)), g')
      /\ state_auth_manager a
         = match get_fastapi_app (am_init (instantiate cls)) with
           | Some _ => Some (am_init (instantiate cls))
           | None => None
           end
  else auth_manager g' = auth_manager g /\ state_auth_manager a = None.
Proof.
  rewrite create_app_cases.
  destruct (slashed_fields g) as (_ & S2 & _).
  destruct (core_requested apps);
    [destruct (conf_auth_manager g) as [cls|] eqn:Hcls|]; simpl;
    try discriminate.
  - intros [= <- <-]. exists cls. split; [reflexivity|]. split; [reflexivity|].
    unfold core_app, fresh_app.
    destruct (get_fastapi_app (am_init (instantiate cls))),
      (execution_requested apps); reflexivity.
  - intros [= <- <-]. split; [exact S2|].
    unfold fresh_app. destruct (execution_requested apps); reflexivity.
Qed.

(** X: where the core views are initialised they are the last routes
    added: after them come only the error handlers, the middlewares and
    the configuration, so every mount and every plugin stands before them;
    and the configuration is the last step on every application. *)
Theorem core_views_are_last_routes
    (apps : string) (g g' : Globals) (a : FastAPI) :
  create_app apps g = (inr a, g') ->
  (exists before, history a = (before ++ [applied init_config])%list)
  /\ (In (applied init_views) (history a) ->
      exists before,
        history a
        = (before ++ [applied init_views; applied init_error_handlers;
                      applied init_middlewares; applied init_config])%list
        /\ (forall path sub, In (mounted path sub) (history a) ->
                             In (mounted path sub) before)).
Proof.
  rewrite create_app_cases.
  destruct (core_requested apps);
    [destruct (conf_auth_manager g) as [cls|] eqn:Hcls|]; simpl;
    try discriminate; intros [= <- <-]; simpl.
  - split; [eexists; reflexivity|]. intros _.
    unfold core_app, fresh_app.
    destruct (get_fastapi_app (am_init (instantiate cls))),
      (execution_requested apps); simpl;
      match goal with
      | |- exists before, ?l = _ /\ _ =>
          exists (firstn (length l - 4) l)
      end;
      (split; [reflexivity|]);
      simpl; intros path sub H;
      repeat (destruct H as [H|H];
              [first [discriminate
                     | rewrite <- H;
                       repeat (first [left; reflexivity | right])]|]);
      destruct H.
  - split; [eexists; reflexivity|].
    unfold fresh_app. destruct (execution_requested apps); simpl;
      intros H; repeat (destruct H as [H|H]; [discriminate|]); destruct H.
Qed.

(** X: once [cached_app] has returned an application, the global [app]
    holds it and every later [cached_app] returns this same application and
    changes nothing, whatever [apps] it is called with. *)
Theorem cached_app_is_cached
    (apps : string) (g g1 : Globals) (a : FastAPI) :
  cached_app apps g = (inr a, g1) ->
  app g1 = Some a
  /\ forall apps', cached_app apps' g1 = (inr a, g1).
Proof.
  intros H.
  assert (app g1 = Some a) as Happ.
  { unfold cached_app, bind, get, put, ret in H.
    destruct (app g) as [a0|] eqn:Hg.
    - inversion H; subst. exact Hg.
    - destruct (create_app apps g) as [[e|a1] g2]; inversion H; subst.
      reflexivity. }
  split; [exact Happ|].
  intros apps'. unfold cached_app, bind, get, ret. rewrite Happ. reflexivity.
Qed.

(** X: after [purge_cached_app] the next [cached_app] builds the
    application anew, for the [apps] it is given: it returns and raises
    what [create_app] does, and the globals other than [app] are those
    [create_app] leaves. *)
Theorem purge_then_cached_app (apps : string) (g : Globals) :
  let purged := snd (purge_cached_app g) in
  app purged = None
  /\ auth_manager purged = auth_manager g
  /\ fst (cached_app apps purged) = fst (create_app apps purged)
  /\ auth_manager (snd (cached_app apps purged))
     = auth_manager (snd (create_app apps purged))
  /\ conf_base_url (snd (cached_app apps purged))
     = conf_base_url (snd (create_app apps purged)).
Proof.
  simpl. unfold purge_cached_app, cached_app, bind, get, put, ret. simpl.
  repeat split;
    destruct (create_app apps _) as [[e|a1] g2]; reflexivity.
Qed.

(** X: [get_auth_manager] raises [RuntimeError] as long as no auth manager
    was created; after [init_auth_manager] it returns the manager that
    [init_auth_manager] returned, initialised, and changes nothing; without
    a configured class [init_auth_manager] raises and the globals stay. *)
Theorem auth_manager_lifecycle (a : option FastAPI) (g : Globals) :
  (auth_manager g = None ->
   get_auth_manager g = (inl (RuntimeError not_initialized_message), g))
  /\ (forall am a' g',
         init_auth_manager a g = (inr (am, a'), g') ->
         get_auth_manager g' = (inr am, g')
         /\ exists cls, conf_auth_manager g = Some cls
                        /\ am = am_init (instantiate cls))
  /\ (conf_auth_manager g = None ->
      init_auth_manager a g
      = (inl (AirflowConfigException no_auth_manager_message), g)).
Proof.
  split; [|split].
  - intros H. unfold get_auth_manager, bind, get, raise. rewrite H.
    reflexivity.
  - intros am a' g'.
    unfold init_auth_manager, create_auth_manager, get_auth_manager_cls,
      get_auth_manager, bind, get, put, ret, raise. simpl.
    destruct (conf_auth_manager g) as [cls|] eqn:Hc; simpl; [|discriminate].
    destruct a as [a0|];
      destruct (get_fastapi_app (am_init (instantiate cls)));
      intros [= <- <- <-]; simpl; (split; [reflexivity|]);
      exists cls; split; reflexivity.
  - intros H.
    unfold init_auth_manager, create_auth_manager, get_auth_manager_cls,
      bind, get, raise. rewrite H. reflexivity.
Qed.

End App.

(** ** A concrete deployment *)

(** Sub-applications by name; auth managers as the name of their class and
    whether [init()] has run; a manager brings an application of its own. *)
Definition sample_instantiate (cls : string) : string * bool := (cls, false).

Definition sample_am_init (am : string * bool) : string * bool := (fst am, true).

Definition sample_get_fastapi_app (am : string * bool) : option string :=
  Some (fst am ++ " app").

Definition sample_urlsplit_path (url : string) : string :=
  if String.eqb url "http://host/airflow/" then "/airflow/" else "".

Definition sample_create_app (apps : string)
  : M (SubApp := string) (AuthManagerCls := string)
      (AuthManager := string * bool) FastAPI :=
  create_app "task execution api" (fun sub => sub ++ " with error handlers")
             sample_instantiate sample_am_init sample_get_fastapi_app
             sample_urlsplit_path apps.

Definition sample_cached_app (apps : string)
  : M (SubApp := string) (AuthManagerCls := string)
      (AuthManager := string * bool) FastAPI :=
  cached_app "task execution api" (fun sub => sub ++ " with error handlers")
             sample_instantiate sample_am_init sample_get_fastapi_app
             sample_urlsplit_path apps.

(** Nothing cached, no manager yet, a base URL without a final slash. *)
Definition at_start (cls : option string)
  : Globals (SubApp := string) (AuthManagerCls := string)
            (AuthManager := string * bool) :=
  {| app := None; auth_manager := None;
     conf_base_url := "http://host/airflow";
     conf_auth_manager := cls |}.

Definition all_apps : FastAPI (SubApp := string) (AuthManager := string * bool) :=
  {| title := "Airflow API"; description := api_description;
     root_path := "/airflow";
     history := [mounted "/execution" "task execution api with error handlers";
                 applied init_dag_bag; applied init_plugins;
                 mounted "/auth" "SimpleAuthManager app";
                 applied init_flask_plugins; applied init_views;
                 applied init_error_handlers; applied init_middlewares;
                 applied init_config];
     state_auth_manager := Some ("SimpleAuthManager", true) |}.

Definition all_apps_globals
  : Globals (SubApp := string) (AuthManagerCls := string)
            (AuthManager := string * bool) :=
  {| app := None; auth_manager := Some ("SimpleAuthManager", true);
     conf_base_url := "http://host/airflow/";
     conf_auth_manager := Some "SimpleAuthManager" |}.

Example create_all_apps :
  sample_create_app "all" (at_start (Some "SimpleAuthManager"))
  = (inr all_apps, all_apps_globals).
Proof. reflexivity. Qed.

Example create_execution_only :
  fst (sample_create_app "execution" (at_start None))
  = inr {| title := "Airflow API"; description := api_description;
           root_path := "/airflow";
           history := [mounted "/execution"
                               "task execution api with error handlers";
                       applied init_config];
           state_auth_manager := None |}.
Proof. reflexivity. Qed.

Example apps_list_examples :
  apps_list "" = ["all"]
  /\ apps_list "core,execution" = ["core"; "execution"]
  /\ core_requested "execution" = false
  /\ core_requested "execution,core" = true
  /\ execution_requested "all" = true.
Proof. repeat split. Qed.

Lemma create_app_base_url_witness :
  conf_base_url all_apps_globals = with_slash "http://host/airflow"
  /\ (conf_base_url all_apps_globals = ""
      \/ endswith "/" (conf_base_url all_apps_globals) = true)
  /\ with_slash (conf_base_url all_apps_globals)
     = conf_base_url all_apps_globals
  /\ app all_apps_globals = None
  /\ conf_auth_manager all_apps_globals = Some "SimpleAuthManager".
Proof.
  exact (create_app_base_url _ _ _ _ _ _ "all"
           (at_start (Some "SimpleAuthManager")) _ _ create_all_apps).
Defined.

Lemma create_app_sets_auth_manager_witness :
  exists cls,
    Some "SimpleAuthManager" = Some cls
    /\ get_auth_manager all_apps_globals
       = (inr (sample_am_init (sample_instantiate cls)), all_apps_globals)
    /\ state_auth_manager all_apps
       = match sample_get_fastapi_app (sample_am_init (sample_instantiate cls))
         with
         | Some _ => Some (sample_am_init (sample_instantiate cls))
         | None => None
         end.
Proof.
  exact (create_app_sets_auth_manager _ _ _ _ _ _ "all"
           (at_start (Some "SimpleAuthManager")) _ _ create_all_apps).
Defined.

Lemma core_views_are_last_routes_witness :
  exists before,
    history all_apps
    = (before ++ [applied init_views; applied init_error_handlers;
                  applied init_middlewares; applied init_config])%list
    /\ (forall path sub, In (mounted path sub) (history all_apps) ->
                         In (mounted path sub) before).
Proof.
  apply (proj2 (core_views_are_last_routes _ _ _ _ _ _ "all"
                  (at_start (Some "SimpleAuthManager")) _ _ create_all_apps)).
  simpl. do 5 right. left. reflexivity.
Defined.

Example cache_all_apps :
  sample_cached_app "all" (at_start (Some "SimpleAuthManager"))
  = (inr all_apps,
     {| app := Some all_apps; auth_manager := Some ("SimpleAuthManager", true);
        conf_base_url := "http://host/airflow/";
        conf_auth_manager := Some "SimpleAuthManager" |}).
Proof. reflexivity. Qed.

Lemma cached_app_is_cached_witness :
  sample_cached_app "execution"
    {| app := Some all_apps; auth_manager := Some ("SimpleAuthManager", true);
       conf_base_url := "http://host/airflow/";
       conf_auth_manager := Some "SimpleAuthManager" |}
  = (inr all_apps,
     {| app := Some all_apps; auth_manager := Some ("SimpleAuthManager", true);
        conf_base_url := "http://host/airflow/";
        conf_auth_manager := Some "SimpleAuthManager" |}).
Proof.
  exact (proj2 (cached_app_is_cached _ _ _ _ _ _ "all"
                  (at_start (Some "SimpleAuthManager")) _ _ cache_all_apps)
               "execution").
Defined.

Lemma auth_manager_lifecycle_witness :
  get_auth_manager (at_start (Some "SimpleAuthManager"))
  = (inl (RuntimeError not_initialized_message),
     at_start (Some "SimpleAuthManager"))
  /\ init_auth_manager sample_instantiate sample_am_init
       sample_get_fastapi_app None (at_start None)
     = (inl (AirflowConfigException no_auth_manager_message), at_start None).
Proof.
  split.
  - exact (proj1 (auth_manager_lifecycle sample_instantiate sample_am_init
                    sample_get_fastapi_app None
                    (at_start (Some "SimpleAuthManager"))) eq_refl).
  - exact (proj2 (proj2 (auth_manager_lifecycle sample_instantiate
                           sample_am_init sample_get_fastapi_app None
                           (at_start None))) eq_refl).
Defined.

End ApiApp.
